(** * Spectrum image analysis (main.py): model and verified properties

    The program reads an image, locates the left and right edge of a colour
    spectrum from the column-wise luminance gradient, cuts the range between
    the edges into [num_sectors] sectors, averages the colour of every sector,
    draws the findings on the picture and writes a per-sector report.

    The development follows the script top-down:
    - [F64]    : Python/NumPy [float64] arithmetic (IEEE 754 binary64, taken
                 from the specification of floats in the standard library);
    - [Np]     : the NumPy array functions the script calls;
    - [Scipy]  : [scipy.signal.find_peaks] with [height] and [distance];
    - the body of [process_spectrum] and of [process_folder], with Pillow
                 and the file system as the environment of a run;
    - the vocabulary of the properties, the exhaustive float checks and the
                 sample pictures;
    - the properties, stage by stage. *)

From Stdlib Require Import String Ascii DecimalString DecimalNat.
From Stdlib Require Import ZArith List Bool Lia Arith.
From Stdlib Require Import Permutation Sorted.
From Stdlib Require Import Floats.SpecFloat.
Import ListNotations.
Open Scope list_scope.

Set Implicit Arguments.

(* ================================================================== *)
(** ** float64 *)
(* ================================================================== *)

Module F64.

Definition prec : Z := 53.
Definition emax : Z := 1024.

Definition float := spec_float.

Definition zero : float := S754_zero false.
Definition nan : float := S754_nan.

(** [float(z)] for a Python int (exact below 2^53, rounded above). *)
Definition of_Z (z : Z) : float := binary_normalize prec emax z 0 false.

Definition add : float -> float -> float := SFadd prec emax.
Definition sub : float -> float -> float := SFsub prec emax.
Definition mul : float -> float -> float := SFmul prec emax.
Definition div : float -> float -> float := SFdiv prec emax.
Definition abs : float -> float := SFabs.

Definition ltb : float -> float -> bool := SFltb.
Definition leb : float -> float -> bool := SFleb.
Definition eqb : float -> float -> bool := SFeqb.

(** A decimal literal [n/d] denotes the double nearest to it, which is what
    the correctly rounded quotient of the two integers gives. *)
Definition literal (n d : Z) : float := div (of_Z n) (of_Z d).

(** [int(x)]: truncation towards zero; Python raises on nan and inf, and a
    NumPy cast of them is not defined, hence [None]. *)
Definition trunc (x : float) : option Z :=
  match x with
  | S754_zero _ => Some 0%Z
  | S754_finite s m e =>
      let a := if (0 <=? e)%Z then (Zpos m * 2 ^ e)%Z
               else (Zpos m / 2 ^ (- e))%Z in
      Some (if s then (- a)%Z else a)
  | _ => None
  end.

(** [np.round(x)]: the nearest integral double, halves to the even one. *)
Definition rint (x : float) : float :=
  match x with
  | S754_finite s m e =>
      if (0 <=? e)%Z then x
      else
        let d := (2 ^ (- e))%Z in
        let q := (Zpos m / d)%Z in
        let r := (Zpos m mod d)%Z in
        let n := match (2 * r ?= d)%Z with
                 | Lt => q
                 | Gt => (q + 1)%Z
                 | Eq => if Z.even q then q else (q + 1)%Z
                 end in
        binary_normalize prec emax (if s then (- n)%Z else n) 0 s
  | _ => x
  end.

End F64.

Abbreviation float := F64.float.

(** Python exceptions: a computation either returns or raises a message. *)
Inductive outcome (A : Type) : Type :=
| Ok (a : A)
| Raise (msg : string).
Arguments Ok {A} a.
Arguments Raise {A} msg.

Definition bind_outcome {A B} (x : outcome A) (k : A -> outcome B) : outcome B :=
  match x with
  | Ok a => k a
  | Raise m => Raise m
  end.

(** Array write [a[i] = v] at an index inside the array. *)
Fixpoint list_set {A} (l : list A) (i : nat) (v : A) : list A :=
  match l, i with
  | [], _ => []
  | _ :: r, O => v :: r
  | x :: r, S j => x :: list_set r j v
  end.

(* ================================================================== *)
(** ** NumPy *)
(* ================================================================== *)

Module Np.

(** [x[i]] on a float array; every access of the script is in range. *)
Definition get (x : list float) (i : nat) : float := nth i x F64.zero.

Definition sum (xs : list float) : float := fold_left F64.add xs F64.zero.

(** [np.mean]: sum over count; an empty array gives 0.0/0 = nan. *)
Definition mean (xs : list float) : float :=
  F64.div (sum xs) (F64.of_Z (Z.of_nat (length xs))).

(** [np.min] and [np.max] raise on an empty array.  (They propagate nan;
    the column means of a picture with at least one row contain none.) *)
Definition amin (xs : list float) : outcome float :=
  match xs with
  | [] => Raise "zero-size array to reduction operation minimum which has no identity"
  | x :: r => Ok (fold_left (fun m v => if F64.ltb v m then v else m) r x)
  end.

Definition amax (xs : list float) : outcome float :=
  match xs with
  | [] => Raise "zero-size array to reduction operation maximum which has no identity"
  | x :: r => Ok (fold_left (fun m v => if F64.ltb m v then v else m) r x)
  end.

(** [np.gradient] of a 1-D array with unit spacing: one-sided differences at
    both ends, central differences inside; fewer than two samples raise. *)
Definition gradient (f : list float) : outcome (list float) :=
  let n := length f in
  if (n <? 2)%nat
  then Raise "Shape of array too small to calculate a numerical gradient, at least (edge_order + 1) elements are required."
  else Ok (map (fun i =>
                  if (i =? 0)%nat
                  then F64.div (F64.sub (get f 1) (get f 0)) (F64.of_Z 1)
                  else if (i =? n - 1)%nat
                  then F64.div (F64.sub (get f (n - 1)) (get f (n - 2))) (F64.of_Z 1)
                  else F64.div (F64.sub (get f (i + 1)) (get f (i - 1))) (F64.of_Z 2))
               (seq 0 n)).

Definition absolute (xs : list float) : list float := map F64.abs xs.

(** [a[k:] = 0] for [0 <= k]. *)
Definition zero_from (k : nat) (xs : list float) : list float :=
  firstn k xs ++ repeat F64.zero (length xs - k).

(** [np.argsort]: the positions of [v] in ascending order of value.  NumPy
    leaves the order of equal values open; here equal values keep their
    order.  The properties below use only that the result is a permutation
    of the positions. *)
Fixpoint insert_by (v : list float) (i : nat) (l : list nat) : list nat :=
  match l with
  | [] => [i]
  | j :: r => if F64.ltb (get v j) (get v i) then j :: insert_by v i r
              else i :: j :: r
  end.

Definition argsort (v : list float) : list nat :=
  fold_right (insert_by v) [] (seq 0 (length v)).

(** [a[idx]] with an integer index array, and [a[mask]] with a boolean one. *)
Definition take {A} (d : A) (a : list A) (idx : list nat) : list A :=
  map (fun i => nth i a d) idx.

Definition compress {A} (mask : list bool) (a : list A) : list A :=
  map fst (filter snd (combine a mask)).

(** [.astype(int)] of a float value.  The cast of nan and of the infinities
    is left to the platform (an x86-64 build gives the least int64): [None]. *)
Definition astype_int (x : float) : option Z := F64.trunc x.

End Np.

(* ================================================================== *)
(** ** scipy.signal.find_peaks *)
(* ================================================================== *)

Module Scipy.

(** The inner loop of [_local_maxima_1d]: advance [i_ahead] over the samples
    equal to [x[i]]. *)
Fixpoint plateau_end (fuel : nat) (x : list float) (i i_ahead i_max : nat) : nat :=
  match fuel with
  | O => i_ahead
  | S fuel' =>
      if (i_ahead <? i_max)%nat && F64.eqb (Np.get x i_ahead) (Np.get x i)
      then plateau_end fuel' x i (S i_ahead) i_max
      else i_ahead
  end.

(** The outer loop of [_local_maxima_1d], from sample [i]; it returns the
    midpoints of the maxima found. *)
Fixpoint local_maxima_from (fuel : nat) (x : list float) (i i_max : nat) : list nat :=
  match fuel with
  | O => []
  | S fuel' =>
      if (i <? i_max)%nat then
        if F64.ltb (Np.get x (i - 1)) (Np.get x i) then
          let i_ahead := plateau_end (i_max - i) x i (i + 1) i_max in
          if F64.ltb (Np.get x i_ahead) (Np.get x i)
          then ((i + (i_ahead - 1)) / 2)%nat
                 :: local_maxima_from fuel' x (i_ahead + 1) i_max
          else local_maxima_from fuel' x (i + 1) i_max
        else local_maxima_from fuel' x (i + 1) i_max
      else []
  end.

(** First and last sample cannot be maxima: [i] runs from 1 below
    [len(x) - 1]. *)
Definition local_maxima_1d (x : list float) : list nat :=
  local_maxima_from (length x) x 1 (length x - 1).

(** [_select_by_property] with a lower bound only. *)
Definition select_by_height (x : list float) (hmin : float) (peaks : list nat) : list bool :=
  map (fun p => F64.leb hmin (Np.get x p)) peaks.

(** [_select_by_peak_distance]: the two inner loops clear the flags of the
    neighbours closer than [distance] to peak [j]. *)
Fixpoint flag_earlier (peaks : list nat) (j distance : nat) (k1 : nat) (keep : list bool)
  : list bool :=
  match k1 with
  | O => keep
  | S k =>
      if (nth j peaks 0 - nth k peaks 0 <? distance)%nat
      then flag_earlier peaks j distance k (list_set keep k false)
      else keep
  end.

Fixpoint flag_later (fuel : nat) (peaks : list nat) (j distance : nat) (k : nat)
  (keep : list bool) : list bool :=
  match fuel with
  | O => keep
  | S fuel' =>
      if (k <? length peaks)%nat && (nth k peaks 0 - nth j peaks 0 <? distance)%nat
      then flag_later fuel' peaks j distance (S k) (list_set keep k false)
      else keep
  end.

Definition visit (peaks : list nat) (distance : nat) (keep : list bool) (j : nat) : list bool :=
  if nth j keep false
  then flag_later (length peaks - (j + 1)) peaks j distance (j + 1)
         (flag_earlier peaks j distance j keep)
  else keep.

Definition select_by_peak_distance (peaks : list nat) (priority : list float)
  (distance : nat) : list bool :=
  let priority_to_position := Np.argsort priority in
  fold_left (visit peaks distance) (rev priority_to_position)
    (repeat true (length peaks)).

(** [find_peaks(x, height=h, distance=d)], first component of the result. *)
Definition find_peaks (x : list float) (height : float) (distance : nat) : list nat :=
  let peaks := local_maxima_1d x in
  let peaks := Np.compress (select_by_height x height peaks) peaks in
  let keep := select_by_peak_distance peaks (Np.take F64.zero x peaks) distance in
  Np.compress keep peaks.

End Scipy.

(* ================================================================== *)
(** ** Images *)
(* ================================================================== *)

(** An RGB pixel and a decoded image: [height] rows of [width] pixels, the
    array [np.array(img)] of shape (height, width, 3). *)
Definition pixel : Type := (Z * Z * Z)%type.
Definition image : Type := list (list pixel).

Definition red (p : pixel) : Z := fst (fst p).
Definition green (p : pixel) : Z := snd (fst p).
Definition blue (p : pixel) : Z := snd p.

Definition black : pixel := (0, 0, 0)%Z.

Definition height (a : image) : nat := length a.
Definition width (a : image) : nat := length (hd [] a).

(** Every row has the width of the first one, and there is at least one row
    and one column. *)
Definition well_formed (a : image) : Prop :=
  (1 <= height a)%nat /\ (1 <= width a)%nat /\
  Forall (fun row => length row = width a) a.

(** [a[:, c]] and [a[:, lo:hi]] for non-negative [lo], [hi]. *)
Definition column (a : image) (c : nat) : list pixel :=
  map (fun row => nth c row black) a.

Definition columns (a : image) (lo hi : Z) : image :=
  map (fun row => firstn (Z.to_nat hi - Z.to_nat lo) (skipn (Z.to_nat lo) row)) a.

(* ================================================================== *)
(** ** Edge detection (lines 47-70 of process_spectrum) *)
(* ================================================================== *)

Open Scope Z_scope.

Definition py_int (x : float) : outcome Z :=
  match F64.trunc x with
  | Some z => Ok z
  | None => Raise "cannot convert float NaN or infinity to integer"
  end.

(** [avg_colors = np.mean(img_array, axis=0)]: per column, the mean of each
    channel over the rows. *)
Definition avg_colors (a : image) : list (list float) :=
  map (fun c =>
         map (fun ch => Np.mean (map (fun p => F64.of_Z (ch p)) (column a c)))
           [red; green; blue])
    (seq 0 (width a)).

(** The literal [1e-10]. *)
Definition epsilon : float := Eval vm_compute in F64.literal 1 10000000000.

(** [np.mean(avg_colors, axis=1)] followed by the min-max normalisation. *)
Definition grayscale (a : image) : outcome (list float) :=
  let g := map Np.mean (avg_colors a) in
  bind_outcome (Np.amin g) (fun lo =>
  bind_outcome (Np.amax g) (fun hi =>
  bind_outcome (Np.amin g) (fun lo' =>
  Ok (map (fun v => F64.div (F64.sub v lo)
                      (F64.add (F64.sub hi lo') epsilon))
        g)))).

Definition gradient_magnitude (a : image) : outcome (list float) :=
  bind_outcome (grayscale a) (fun g =>
  bind_outcome (Np.gradient g) (fun d => Ok (Np.absolute d))).

(** The literal [0.9]. *)
Definition nine_tenths : float := Eval vm_compute in F64.literal 9 10.

(** [ignore_right = int(width * 0.9)]. *)
Definition ignore_right (w : Z) : outcome Z :=
  py_int (F64.mul (F64.of_Z w) nine_tenths).

(** [modified_gradient = gradient_magnitude.copy()] with
    [modified_gradient[ignore_right:] = 0]. *)
Definition modified_gradient (gm : list float) (ir : Z) : list float :=
  Np.zero_from (Z.to_nat ir) gm.

(** The thresholds passed to [find_peaks]. *)
Definition peak_height : float := Eval vm_compute in F64.literal 1 10.
Definition peak_distance : nat := 20.

Definition peaks_of (mg : list float) : list nat :=
  Scipy.find_peaks mg peak_height peak_distance.

(** [l[-2:]] *)
Definition last_two {A} (l : list A) : list A := skipn (length l - 2) l.

Definition list_min (l : list Z) : Z :=
  match l with [] => 0 | x :: r => fold_left Z.min r x end.
Definition list_max (l : list Z) : Z :=
  match l with [] => 0 | x :: r => fold_left Z.max r x end.

(** [peaks[np.argsort(modified_gradient[peaks])[-2:]]] *)
Definition strongest_peaks (mg : list float) (peaks : list nat) : list Z :=
  map Z.of_nat
    (Np.take 0%nat peaks (last_two (Np.argsort (Np.take F64.zero mg peaks)))).

(** The two branches of the [if len(peaks) >= 2]; the second component of
    the first branch is the right edge before line 67 clamps it. *)
Definition peak_edges (mg : list float) (peaks : list nat) : Z * Z :=
  let sp := strongest_peaks mg peaks in (list_min sp, list_max sp).

Definition default_edges (w ir : Z) : Z * Z :=
  (w / 4, Z.min (3 * w / 4) ir).

Definition select_edges (w ir : Z) (mg : list float) (peaks : list nat) : Z * Z :=
  if (2 <=? length peaks)%nat
  then let '(left_edge, right_edge) := peak_edges mg peaks in
       (left_edge, Z.min right_edge ir)
  else default_edges w ir.

Definition detect_edges (a : image) : outcome (Z * Z) :=
  let w := Z.of_nat (width a) in
  bind_outcome (gradient_magnitude a) (fun gm =>
  bind_outcome (ignore_right w) (fun ir =>
  let mg := modified_gradient gm ir in
  Ok (select_edges w ir mg (peaks_of mg)))).

(* ================================================================== *)
(** ** Sectors (lines 78-92) *)
(* ================================================================== *)

(** Python's [a / b] on ints.  (With NumPy integers, as in the peak branch,
    a zero divisor gives inf or nan instead, and the [int] of line 79 raises.) *)
Definition true_div (a b : Z) : outcome float :=
  if b =? 0 then Raise "division by zero"
  else Ok (F64.div (F64.of_Z a) (F64.of_Z b)).

Fixpoint sequence {A} (l : list (outcome A)) : outcome (list A) :=
  match l with
  | [] => Ok []
  | x :: r => bind_outcome x (fun a =>
              bind_outcome (sequence r) (fun s => Ok (a :: s)))
  end.

(** [int(left_edge + i*sector_width)] *)
Definition boundary (left_edge : Z) (sector_width : float) (i : nat) : outcome Z :=
  py_int (F64.add (F64.of_Z left_edge)
            (F64.mul (F64.of_Z (Z.of_nat i)) sector_width)).

Definition sector_boundaries (left_edge right_edge : Z) (num_sectors : nat)
  : outcome (list Z) :=
  bind_outcome (true_div (right_edge - left_edge) (Z.of_nat num_sectors))
    (fun sector_width =>
       sequence (map (boundary left_edge sector_width) (seq 0 (num_sectors + 1)))).

(** [range(n)] for any Python int: empty when [n <= 0]. *)
Definition py_range (n : Z) : list nat := seq 0 (Z.to_nat n).

(** Lines 78-79 for any Python int [num_sectors]: a negative one divides
    without error, and [range(num_sectors+1)] is then empty. *)
Definition sector_boundaries_int (left_edge right_edge num_sectors : Z)
  : outcome (list Z) :=
  bind_outcome (true_div (right_edge - left_edge) num_sectors)
    (fun sector_width =>
       sequence (map (boundary left_edge sector_width) (py_range (num_sectors + 1)))).

(** [np.mean(sector, axis=(0,1)).astype(int)]: the mean of every channel
    over all pixels of the block, cast to int.  The mean of an empty block is
    nan, whose cast is not defined: [None]. *)
Definition channel_mean (ch : pixel -> Z) (block : image) : float :=
  Np.mean (map (fun p => F64.of_Z (ch p)) (concat block)).

Definition avg_color (block : image) : option pixel :=
  match Np.astype_int (channel_mean red block),
        Np.astype_int (channel_mean green block),
        Np.astype_int (channel_mean blue block) with
  | Some r, Some g, Some b => Some (r, g, b)
  | _, _, _ => None
  end.

(** [img_array[:, sector_boundaries[i]:sector_boundaries[i+1]]] *)
Definition sector (a : image) (bounds : list Z) (i : nat) : image :=
  columns a (nth i bounds 0) (nth (i + 1) bounds 0).

Definition sector_color (a : image) (bounds : list Z) (i : nat) : option pixel :=
  avg_color (sector a bounds i).

(* ================================================================== *)
(** ** The environment of a run: Pillow, fonts and the file system *)
(* ================================================================== *)

Inductive font : Type :=
| TrueType (name : string) (size : Z)
| DefaultFont.

Definition box : Type := (Z * Z * Z * Z)%type.
Definition point : Type := (Z * Z)%type.

(** What the script asks of the outside world.  The drawing primitives are
    Pillow's; nothing is assumed about the pixels they touch. *)
Record platform : Type := {
  (** [Image.open(path)] as an RGB pixel grid, or the exception it raises *)
  image_open : string -> outcome image;
  (** whether [ImageFont.truetype(name, _)] finds the font *)
  truetype_available : string -> bool;
  (** [draw.textbbox((0, 0), s, font=f)] *)
  textbbox : font -> string -> box;
  (** [draw.rectangle(box, fill=, outline=, width=)] *)
  rectangle : box -> option pixel -> option pixel -> Z -> image -> image;
  (** [draw.line([p, q], fill=, width=)] *)
  line : point -> point -> pixel -> Z -> image -> image;
  (** [draw.text(p, s, fill=, font=)] *)
  text : point -> string -> pixel -> font -> image -> image;
  (** [img.save(path)]: succeeds or raises *)
  image_save : string -> image -> outcome unit;
  (** [open(path, "w")] and the writes to it: succeed or raise *)
  file_write : string -> outcome unit;
  (** [os.makedirs(folder, exist_ok=True)]: succeeds or raises *)
  makedirs : string -> outcome unit;
  (** [os.listdir(folder)], or the exception it raises *)
  listdir : string -> outcome (list string)
}.

(** What a run leaves behind. *)
Inductive event : Type :=
| Print (s : string)
| SaveImage (path : string) (img : image)
| WriteFile (path : string) (content : option string).

(** The two objects [process_spectrum] works on: the Pillow image [img],
    which the drawing calls mutate, and [img_array = np.array(img)], a copy of
    its pixels taken on line 32. *)
Record store : Type := { img : image; img_array : image }.

(** State and exceptions. *)
Definition M (A : Type) : Type := store -> outcome (A * store).

Definition ret {A} (a : A) : M A := fun s => Ok (a, s).
Definition bind {A B} (m : M A) (k : A -> M B) : M B :=
  fun s => match m s with
           | Ok (a, s') => k a s'
           | Raise e => Raise e
           end.
Definition lift {A} (x : outcome A) : M A :=
  fun s => match x with Ok a => Ok (a, s) | Raise e => Raise e end.

Notation "x <- m ;; k" := (bind m (fun x => k))
  (at level 61, m at next level, right associativity).
Notation "m ;;; k" := (bind m (fun _ => k))
  (at level 61, right associativity).

Definition get_array : M image := fun s => Ok (img_array s, s).
Definition get_img : M image := fun s => Ok (img s, s).
(** A drawing call paints on [img]. *)
Definition draw (paint : image -> image) : M unit :=
  fun s => Ok (tt, {| img := paint (img s); img_array := img_array s |}).

Fixpoint foldM {A B} (f : B -> A -> M B) (l : list A) (b : B) : M B :=
  match l with
  | [] => ret b
  | a :: r => b' <- f b a ;; foldM f r b'
  end.

(* ================================================================== *)
(** ** process_spectrum *)
(* ================================================================== *)

Record result : Type := {
  edges : Z * Z;
  boundaries : list Z;
  sector_colors : list (option pixel);
  spectrum_width : Z
}.

Definition white : pixel := (255, 255, 255).
Definition lime : pixel := (0, 255, 0).

(** [str(n)] *)
Definition str (n : nat) : string := NilEmpty.string_of_uint (Nat.to_uint n).

(** [try: ImageFont.truetype(name, size) except: ImageFont.load_default()] *)
Definition load_font (env : platform) (name : string) (size : Z) : font :=
  if truetype_available env name then TrueType name size else DefaultFont.

(** One round of the loop of lines 83-96. *)
Definition sector_step (env : platform) (bounds : list Z) (num_sectors : nat)
  (h : Z) (numFont : font) (colors : list (option pixel)) (i : nat)
  : M (list (option pixel)) :=
  let x := nth i bounds 0 in
  (if (0 <? i)%nat && (i <? num_sectors)%nat
   then draw (line env (x, 0) (x, h) black 1) else ret tt) ;;;
  colors' <- (if (i <? num_sectors)%nat
              then a <- get_array ;; ret (colors ++ [sector_color a bounds i])
              else ret colors) ;;
  (if (i <? num_sectors)%nat
   then draw (text env (x + 5, h - 60) (str (i + 1)) black numFont)
   else ret tt) ;;;
  ret colors'.

(** Lines 33-109, after the image is loaded. *)
Definition process_body (env : platform) (output_path title : string)
  (num_sectors : nat) (numFont : font) : M result :=
  a <- get_array ;;
  let h := Z.of_nat (height a) in
  let w := Z.of_nat (width a) in
  let font := load_font env "arial.ttf" 40 in
  let '(b0, _, b2, b3) := textbbox env font title in
  let title_x := (w - (b2 - b0)) / 2 in
  draw (rectangle env (title_x - 5, 5, title_x + b2 + 5, b3 + 15) (Some white) None 1) ;;;
  draw (text env (title_x, 10) title black font) ;;;
  a <- get_array ;;
  e <- lift (detect_edges a) ;;
  let '(left_edge, right_edge) := e in
  draw (rectangle env (left_edge, 0, right_edge, h) None (Some lime) 2) ;;;
  draw (line env (left_edge, 0) (left_edge, h) black 3) ;;;
  draw (line env (right_edge, 0) (right_edge, h) black 3) ;;;
  bounds <- lift (sector_boundaries left_edge right_edge num_sectors) ;;
  colors <- foldM (sector_step env bounds num_sectors h numFont)
              (seq 0 (num_sectors + 1)) [] ;;
  i <- get_img ;;
  lift (image_save env output_path i) ;;;
  ret {| edges := (left_edge, right_edge);
         boundaries := bounds;
         sector_colors := colors;
         spectrum_width := right_edge - left_edge |}.

(** The whole function: the returned value ([None] for Python's [None]) and
    what it printed and saved. *)
Definition process_spectrum (env : platform) (input_path output_path title : string)
  (num_sectors : nat) : option result * list event :=
  let numFont := load_font env "arial.ttf" 12 in
  match bind_outcome (image_open env input_path)
          (fun i => process_body env output_path title num_sectors numFont
                      {| img := i; img_array := i |}) with
  | Ok (r, s) =>
      (Some r, [SaveImage output_path (img s);
                Print ("Processed image saved to " ++ output_path)%string])
  | Raise e => (None, [Print ("Error processing image: " ++ e)%string])
  end.

(** The same lines for any Python int [num_sectors].  The loop runs over
    [range(num_sectors+1)], which is empty for a negative [num_sectors]; inside
    the loop [i < num_sectors] compares with a [num_sectors] that is not
    negative.  On a natural number these are [process_body] and
    [process_spectrum]. *)
Definition process_body_int (env : platform) (output_path title : string)
  (num_sectors : Z) (numFont : font) : M result :=
  a <- get_array ;;
  let h := Z.of_nat (height a) in
  let w := Z.of_nat (width a) in
  let font := load_font env "arial.ttf" 40 in
  let '(b0, _, b2, b3) := textbbox env font title in
  let title_x := (w - (b2 - b0)) / 2 in
  draw (rectangle env (title_x - 5, 5, title_x + b2 + 5, b3 + 15) (Some white) None 1) ;;;
  draw (text env (title_x, 10) title black font) ;;;
  a <- get_array ;;
  e <- lift (detect_edges a) ;;
  let '(left_edge, right_edge) := e in
  draw (rectangle env (left_edge, 0, right_edge, h) None (Some lime) 2) ;;;
  draw (line env (left_edge, 0) (left_edge, h) black 3) ;;;
  draw (line env (right_edge, 0) (right_edge, h) black 3) ;;;
  bounds <- lift (sector_boundaries_int left_edge right_edge num_sectors) ;;
  colors <- foldM (sector_step env bounds (Z.to_nat num_sectors) h numFont)
              (py_range (num_sectors + 1)) [] ;;
  i <- get_img ;;
  lift (image_save env output_path i) ;;;
  ret {| edges := (left_edge, right_edge);
         boundaries := bounds;
         sector_colors := colors;
         spectrum_width := right_edge - left_edge |}.

Definition process_spectrum_int (env : platform)
  (input_path output_path title : string) (num_sectors : Z)
  : option result * list event :=
  let numFont := load_font env "arial.ttf" 12 in
  match bind_outcome (image_open env input_path)
          (fun i => process_body_int env output_path title num_sectors numFont
                      {| img := i; img_array := i |}) with
  | Ok (r, s) =>
      (Some r, [SaveImage output_path (img s);
                Print ("Processed image saved to " ++ output_path)%string])
  | Raise e => (None, [Print ("Error processing image: " ++ e)%string])
  end.

(* ================================================================== *)
(** ** The report and process_folder *)
(* ================================================================== *)

(** [np.round(np.array(color) / 255 * 360).astype(int)], one channel. *)
Definition scale_channel (c : Z) : option Z :=
  Np.astype_int
    (F64.rint (F64.mul (F64.div (F64.of_Z c) (F64.of_Z 255)) (F64.of_Z 360))).

Definition hsv (color : pixel) : option (Z * Z * Z) :=
  match scale_channel (red color), scale_channel (green color),
        scale_channel (blue color) with
  | Some h, Some s, Some v => Some (h, s, v)
  | _, _, _ => None
  end.

(** The [if]/[elif]/[elif] of lines 161-166; [None] when no branch assigns
    [sell]. *)
Definition opinion (h : Z) : option string :=
  if 200 <=? h then Some "Don't sell"%string
  else if 125 <=? h then Some "Squeeze room"%string
  else if h <? 125 then Some "Sell"%string
  else None.

Definition newline : string := String (ascii_of_nat 10) EmptyString.

(** The line written for sector [i] (counted from 0) of colour [color]; the
    line is not determined when the colour is not. *)
Definition report_line (i : nat) (color : option pixel) : option string :=
  match color with
  | None => None
  | Some c =>
      match hsv c with
      | None => None
      | Some (h, _, _) =>
          match opinion h with
          | None => None
          | Some sell =>
              Some ("Sector " ++ str (i + 1) ++ ", " ++ sell ++ newline)%string
          end
      end
  end.

Definition header : string := ("Sector #, Opinion" ++ newline)%string.

Fixpoint enumerate_from {A} (i : nat) (l : list A) : list (nat * A) :=
  match l with
  | [] => []
  | a :: r => (i, a) :: enumerate_from (S i) r
  end.

(** The lines of the report file, header first. *)
Definition report_lines (colors : list (option pixel)) : list (option string) :=
  Some header :: map (fun ic => report_line (fst ic) (snd ic)) (enumerate_from 0 colors).

Fixpoint concat_lines (l : list (option string)) : option string :=
  match l with
  | [] => Some EmptyString
  | None :: _ => None
  | Some s :: r =>
      match concat_lines r with
      | Some t => Some (s ++ t)%string
      | None => None
      end
  end.

(** The bytes of the report file. *)
Definition report (colors : list (option pixel)) : option string :=
  concat_lines (report_lines colors).

(** [s.lower()] on ASCII and [s.endswith(suffix)]. *)
Definition lower_ascii (c : ascii) : ascii :=
  let n := nat_of_ascii c in
  if (65 <=? n)%nat && (n <=? 90)%nat then ascii_of_nat (n + 32) else c.

Fixpoint lower (s : string) : string :=
  match s with
  | EmptyString => EmptyString
  | String c r => String (lower_ascii c) (lower r)
  end.

Definition endswith (s suffix : string) : bool :=
  let n := String.length s in
  let k := String.length suffix in
  (k <=? n)%nat && String.eqb (substring (n - k) k s) suffix.

Definition is_image_file (f : string) : bool :=
  existsb (endswith (lower f))
    [".png"; ".jpg"; ".jpeg"; ".bmp"; ".gif"]%string.

(** [os.path.splitext(name)[0]] for a name without directory part: cut at
    the last dot unless only dots precede it. *)
Fixpoint all_dots (s : string) : bool :=
  match s with
  | EmptyString => true
  | String c r => Ascii.eqb c "."%char && all_dots r
  end.

Fixpoint last_dot (s : string) (i : nat) (found : option nat) : option nat :=
  match s with
  | EmptyString => found
  | String c r => last_dot r (S i) (if Ascii.eqb c "."%char then Some i else found)
  end.

Definition splitext_root (name : string) : string :=
  match last_dot name 0 None with
  | None => name
  | Some k => if all_dots (substring 0 k name) then name else substring 0 k name
  end.

(** [os.path.join(folder, name)] for a name that does not start with a
    slash. *)
Definition path_join (folder name : string) : string :=
  if String.eqb folder EmptyString || endswith folder "/"
  then (folder ++ name)%string
  else (folder ++ "/" ++ name)%string.

(** [all_results[key] = r] on a dict kept in insertion order. *)
Fixpoint dict_set (d : list (string * result)) (key : string) (r : result)
  : list (string * result) :=
  match d with
  | [] => [(key, r)]
  | (k, v) :: rest =>
      if String.eqb k key then (k, r) :: rest else (k, v) :: dict_set rest key r
  end.


(** The path of the report written for [image_file] (line 156). *)
Definition color_file (output_folder image_file : string) : string :=
  path_join output_folder (splitext_root image_file ++ "_processed.csv")%string.

(** The call of lines 145-150 for [image_file]. *)
Definition run_file (env : platform) (input_folder output_folder : string)
  (num_sectors : nat) (image_file : string) : option result * list event :=
  process_spectrum env (path_join input_folder image_file)
    (path_join output_folder image_file) (splitext_root image_file) num_sectors.

(** One round of the loop of lines 135-170: the [try] block and its
    [except]. *)
Definition process_file (env : platform) (input_folder output_folder : string)
  (num_sectors : nat) (acc : list (string * result) * list event)
  (image_file : string) : list (string * result) * list event :=
  let '(all_results, out) := acc in
  let out := out ++ [Print (newline ++ "Processing " ++ image_file ++ "...")%string] in
  let '(res, printed) :=
    run_file env input_folder output_folder num_sectors image_file in
  let out := out ++ printed in
  match res with
  | Some r =>
      let all_results := dict_set all_results image_file r in
      match file_write env (color_file output_folder image_file) with
      | Ok _ =>
          (all_results,
           out ++ [WriteFile (color_file output_folder image_file)
                     (report (sector_colors r))])
      | Raise e =>
          (all_results,
           out ++ [Print ("Error processing " ++ image_file ++ ": " ++ e)%string])
      end
  | None => (all_results, out)
  end.

(** The list comprehension of lines 130-131. *)
Definition image_files (names : list string) : list string :=
  filter is_image_file names.

(** The loop of lines 133-170 over the files kept. *)
Definition process_files (env : platform) (input_folder output_folder : string)
  (num_sectors : nat) (files : list string) : list (string * result) * list event :=
  fold_left (process_file env input_folder output_folder num_sectors) files ([], []).

(** The whole function: [os.makedirs] and [os.listdir] are outside every
    [try], what they raise leaves the function. *)
Definition process_folder (env : platform) (input_folder output_folder : string)
  (num_sectors : nat) : outcome (list (string * result) * list event) :=
  bind_outcome (makedirs env output_folder) (fun _ =>
  bind_outcome (listdir env input_folder) (fun names =>
  Ok (process_files env input_folder output_folder num_sectors (image_files names)))).

(* ================================================================== *)
(** * Vocabulary of the properties, exhaustive checks and sample inputs *)
(* ================================================================== *)

(** Peak [k] is a neighbour of peak [j] closer than [distance]. *)
Definition close (peaks : list nat) (distance j k : nat) : Prop :=
  (k < j /\ nth j peaks 0 - nth k peaks 0 < distance)%nat \/
  (j < k /\ nth k peaks 0 - nth j peaks 0 < distance)%nat.

(** Invariant of the loop of [_select_by_peak_distance] over the peaks in
    order of priority: around every visited peak that is still kept, all
    closer neighbours are cleared. *)
Definition settled (peaks : list nat) (distance : nat) (keep : list bool)
  (visited : list nat) : Prop :=
  length keep = length peaks /\
  forall j, In j visited -> nth j keep false = true ->
            forall k, (k < length peaks)%nat -> close peaks distance j k ->
                      nth k keep false = false.

(** The widths for which the float product was evaluated. *)
Definition max_width : Z := 65535.

(** [f] holds on the [n] integers from [z] on. *)
Fixpoint all_from (n : nat) (z : Z) (f : Z -> bool) : bool :=
  match n with
  | O => true
  | S k => f z && all_from k (z + 1) f
  end.

(** [int(w * 0.9)] is the floor of nine tenths of [w]. *)
Definition ignore_right_is_floor (w : Z) : bool :=
  match ignore_right w with
  | Ok v => v =? 9 * w / 10
  | Raise _ => false
  end.

(** The mantissa [m] cut by [n] bits and rounded to nearest, ties to even. *)
Definition round_shift (m n : Z) : Z :=
  let q := m / 2 ^ n in
  match 2 * (m mod 2 ^ n) ?= 2 ^ n with
  | Lt => q
  | Eq => if Z.even q then q else q + 1
  | Gt => q + 1
  end.

(** The mantissa of the literal [0.9], which is [nine_tenths_mantissa] times
    2^-53. *)
Definition nine_tenths_mantissa : Z := 8106479329266893.

(** The first width at which [int(width * 0.9)] is not the floor of nine
    tenths of the width: the product, 2^50 or more, is rounded to a multiple
    of 1/4 and from 0.9 above an integer reaches the next one. *)
Definition float_width_limit : Z := 1250999896491811.

(** What C1 asks of an image. *)
Definition claimed_edge_pair (a : image) : Prop :=
  let w := Z.of_nat (width a) in
  exists l r, detect_edges a = Ok (l, r) /\
              0 <= l /\ r <= 9 * w / 10 - 1 /\ (l < r \/ (l = r /\ w < 4)).

(** A picture of one row and four columns. *)
Definition four_columns : image := [[black; black; black; black]].

(** A step picture: black, then a band of one colour from column [lo] up to
    column [hi], then black again. *)
Definition band_image (w h lo hi : nat) : image :=
  repeat (map (fun c => if (c <? lo)%nat || (hi <=? c)%nat then black
                        else (200, 100, 50))
            (seq 0 w)) h.

(** One row of 60 columns with a band from column 10 up to column 40. *)
Definition band60 : image := band_image 60 1 10 40.

(** The edge strength of [band60], evaluated. *)
Definition band60_gm : list float :=
  Eval vm_compute in
    match gradient_magnitude band60 with Ok g => g | Raise _ => [] end.

(** What [process_spectrum] computes from the pixel array alone. *)
Definition analyse (a : image) (num_sectors : nat) : outcome result :=
  bind_outcome (detect_edges a) (fun e =>
  bind_outcome (sector_boundaries (fst e) (snd e) num_sectors) (fun bounds =>
  Ok {| edges := e;
        boundaries := bounds;
        sector_colors := map (sector_color a bounds) (seq 0 num_sectors);
        spectrum_width := snd e - fst e |})).

(** Two environments for concrete runs: one whose drawing calls do nothing,
    one whose drawing calls paint the whole picture in their colour. *)
Definition blank_platform (pic : image) : platform :=
  {| image_open := fun _ => Ok pic;
     truetype_available := fun _ => false;
     textbbox := fun _ _ => (0, 0, 0, 0);
     rectangle := fun _ _ _ _ i => i;
     line := fun _ _ _ _ i => i;
     text := fun _ _ _ _ i => i;
     image_save := fun _ _ => Ok tt;
     file_write := fun _ => Ok tt;
     makedirs := fun _ => Ok tt;
     listdir := fun _ => Ok [] |}.

Definition flood (c : pixel) (i : image) : image := map (map (fun _ => c)) i.

Definition flooding_platform (pic : image) : platform :=
  {| image_open := fun _ => Ok pic;
     truetype_available := fun _ => true;
     textbbox := fun _ s => (0, 0, 10 * Z.of_nat (String.length s), 40);
     rectangle := fun _ fill outline _ i =>
                    match fill, outline with
                    | Some c, _ => flood c i
                    | None, Some c => flood c i
                    | None, None => i
                    end;
     line := fun _ _ c _ i => flood c i;
     text := fun _ _ c _ i => flood c i;
     image_save := fun _ _ => Ok tt;
     file_write := fun _ => Ok tt;
     makedirs := fun _ => Ok tt;
     listdir := fun _ => Ok [] |}.

(** A run on [band60] in the flooding environment, evaluated. *)
Definition band60_run : result * store :=
  Eval vm_compute in
    match process_body (flooding_platform band60) "out/band.png" "band" 4
            DefaultFont {| img := band60; img_array := band60 |} with
    | Ok x => x
    | Raise _ => ({| edges := (0, 0); boundaries := []; sector_colors := [];
                     spectrum_width := 0 |},
                  {| img := []; img_array := [] |})
    end.


(** A folder with one picture whose report cannot be written. *)
Definition full_disk_platform : platform :=
  {| image_open := fun _ => Ok band60;
     truetype_available := fun _ => false;
     textbbox := fun _ _ => (0, 0, 0, 0);
     rectangle := fun _ _ _ _ i => i;
     line := fun _ _ _ _ i => i;
     text := fun _ _ _ _ i => i;
     image_save := fun _ _ => Ok tt;
     file_write := fun _ => Raise "No space left on device";
     makedirs := fun _ => Ok tt;
     listdir := fun _ => Ok ["band.png"; "notes.txt"]%string |}.

(** The folder run in that environment, evaluated. *)
Definition full_disk_run : list (string * result) * list event :=
  Eval vm_compute in
    match process_folder full_disk_platform "in" "out" 4 with
    | Ok x => x
    | Raise _ => ([], [])
    end.

(** The three labels by threshold. *)
Definition label (v : Z) : string :=
  if 200 <=? v then "Don't sell"%string
  else if 125 <=? v then "Squeeze room"%string
  else "Sell"%string.

(** [round(red / 255 * 360)] in exact arithmetic: 24 red / 17 is never half
    way between two integers, so rounding is [floor(x + 1/2)]. *)
Definition scaled_red (r : Z) : Z := (48 * r + 17) / 34.

(** The lines of a text file: the pieces that a line feed ends (and what
    follows the last line feed, if anything), without the line feeds. *)
Fixpoint text_lines (s : string) : list string :=
  match s with
  | EmptyString => []
  | String c r =>
      if Ascii.eqb c "010"%char then EmptyString :: text_lines r
      else match text_lines r with
           | [] => [String c EmptyString]
           | l :: ls => String c l :: ls
           end
  end.

(** A string without a line feed. *)
Fixpoint no_line_feed (s : string) : bool :=
  match s with
  | EmptyString => true
  | String c r => negb (Ascii.eqb c "010"%char) && no_line_feed r
  end.

(** The range of a colour channel. *)
Definition channel_range (c : Z) : Prop := 0 <= c <= 255.

Definition pixel_range (p : pixel) : Prop :=
  channel_range (red p) /\ channel_range (green p) /\ channel_range (blue p).

(** The float computation of line 160 gives the exactly rounded value. *)
Definition scale_is_exact (c : Z) : bool :=
  match scale_channel c with
  | Some v => v =? scaled_red c
  | None => false
  end.

(** A picture whose pixels are all [p]. *)
Definition solid_image (w h : nat) (p : pixel) : image := repeat (repeat p w) h.

(** A value that is +0.0 or nan. *)
Definition null (v : float) : Prop := v = F64.zero \/ v = F64.nan.

(** The mean of [n] copies of a channel value [g], cast to int, is [g]:
    evaluated for every channel value and the two block sizes of the
    scenario, 50 and 100 pixels. *)
Definition mean_is_exact (n : nat) (g : Z) : bool :=
  match Np.astype_int (Np.mean (repeat (F64.of_Z g) n)) with
  | Some v => v =? g
  | None => false
  end.

(** The 33 boundaries between the default edges 25 and 75. *)
Definition bounds_25_75 : list Z :=
  Eval vm_compute in
    match sector_boundaries 25 75 32 with Ok b => b | Raise _ => [] end.

(** Every one of the 32 sectors is one or two columns wide and lies inside
    the picture. *)
Definition narrow_sector (i : nat) : bool :=
  let lo := nth i bounds_25_75 0 in
  let hi := nth (i + 1) bounds_25_75 0 in
  (0 <=? lo) && (hi <=? 100) && ((hi - lo =? 1) || (hi - lo =? 2)).

(** The boundary as the specification words it, in exact arithmetic:
    [floor(left_edge + i * (right_edge - left_edge) / N)]. *)
Definition spec_boundary (left_edge right_edge : Z) (n i : nat) : Z :=
  (left_edge * Z.of_nat n + Z.of_nat i * (right_edge - left_edge)) / Z.of_nat n.

(** The boundaries computed for [(l, r)] are the exact ones. *)
Definition boundaries_agree (n : nat) (l r : Z) : bool :=
  match sector_boundaries l r n with
  | Ok bs => forallb (fun i => nth i bs 0 =? spec_boundary l r n i) (seq 0 (n + 1))
             && (length bs =? n + 1)%nat
  | Raise _ => false
  end.

(** A picture of one row and two columns, and one of one row and 78
    columns of one gray. *)
Definition two_columns : image := [[black; black]].

Definition seventy_eight_columns : image := solid_image 78 1 (90, 90, 90).

(** A picture of two rows and forty columns, all of one gray. *)
Definition forty_columns : image := solid_image 40 2 (90, 90, 90).

(** Its analysis with the default 32 sectors, evaluated. *)
Definition forty_columns_result : result :=
  Eval vm_compute in
    match analyse forty_columns 32 with
    | Ok r => r
    | Raise _ => {| edges := (0, 0); boundaries := []; sector_colors := [];
                    spectrum_width := 0 |}
    end.

(** A step picture 24 columns wide, a picture of a single pixel, and a
    folder without pictures. *)
Definition band24 : image := band_image 24 1 5 15.

Definition one_pixel : image := [[black]].

Definition text_only_platform : platform :=
  {| image_open := fun _ => Raise "cannot identify image file";
     truetype_available := fun _ => false;
     textbbox := fun _ _ => (0, 0, 0, 0);
     rectangle := fun _ _ _ _ i => i;
     line := fun _ _ _ _ i => i;
     text := fun _ _ _ _ i => i;
     image_save := fun _ _ => Ok tt;
     file_write := fun _ => Ok tt;
     makedirs := fun _ => Ok tt;
     listdir := fun _ => Ok ["notes.txt"; "README"; "png"]%string |}.

(** A string without a dot. *)
Fixpoint no_dot (s : string) : bool :=
  match s with
  | EmptyString => true
  | String c r => negb (Ascii.eqb c "."%char) && no_dot r
  end.

(** The extensions of line 131. *)
Definition image_extensions : list string :=
  [".png"; ".jpg"; ".jpeg"; ".bmp"; ".gif"]%string.

(** A folder with one picture and one other file, everything writable, and
    its run with four sectors, evaluated. *)
Definition one_band_platform : platform :=
  {| image_open := fun _ => Ok band60;
     truetype_available := fun _ => false;
     textbbox := fun _ _ => (0, 0, 0, 0);
     rectangle := fun _ _ _ _ i => i;
     line := fun _ _ _ _ i => i;
     text := fun _ _ _ _ i => i;
     image_save := fun _ _ => Ok tt;
     file_write := fun _ => Ok tt;
     makedirs := fun _ => Ok tt;
     listdir := fun _ => Ok ["band.png"; "notes.txt"]%string |}.

Definition one_band_run : list (string * result) * list event :=
  Eval vm_compute in
    match process_folder one_band_platform "in" "out" 4 with
    | Ok x => x
    | Raise _ => ([], [])
    end.

(* ================================================================== *)
(** * Properties *)
(* ================================================================== *)

Ltac inv H := inversion H; subst; clear H.

(** ** Arrays *)

Section ListFacts.
Context {A : Type}.

Lemma list_set_length (l : list A) i v : length (list_set l i v) = length l.
Proof.
  revert i; induction l as [|x l IH]; intros [|i]; simpl; auto.
Qed.

Lemma nth_list_set_same (l : list A) i v d :
  (i < length l)%nat -> nth i (list_set l i v) d = v.
Proof.
  revert i; induction l as [|x l IH]; intros [|i]; simpl; intros H;
    try lia; auto.
  apply IH; lia.
Qed.

Lemma nth_list_set_other (l : list A) i j v d :
  i <> j -> nth j (list_set l i v) d = nth j l d.
Proof.
  revert i j; induction l as [|x l IH]; intros [|i] [|j] H; simpl; auto;
    try congruence.
Qed.

Lemma compress_nil_l (a : list A) : Np.compress [] a = [].
Proof. destruct a; reflexivity. Qed.

Lemma compress_cons m (ms : list bool) x (xs : list A) :
  Np.compress (m :: ms) (x :: xs)
  = if m then x :: Np.compress ms xs else Np.compress ms xs.
Proof. destruct m; reflexivity. Qed.

Lemma In_compress (ms : list bool) (xs : list A) x :
  In x (Np.compress ms xs) -> In x xs.
Proof.
  revert ms; induction xs as [|y xs IH]; intros [|m ms];
    try (simpl; tauto).
  rewrite compress_cons. destruct m; simpl; intros H.
  - destruct H; eauto.
  - right; eauto.
Qed.

(** An element selected by a mask sits at a position whose flag is set. *)
Lemma In_compress_nth (ms : list bool) (xs : list A) x d :
  In x (Np.compress ms xs) ->
  exists k, (k < length xs)%nat /\ nth k xs d = x /\ nth k ms false = true.
Proof.
  revert ms; induction xs as [|y xs IH]; intros [|m ms];
    try (simpl; contradiction).
  rewrite compress_cons. destruct m; simpl; intros H.
  - destruct H as [->|H].
    + exists 0%nat; repeat split; auto; lia.
    + destruct (IH _ H) as (k & ? & ? & ?).
      exists (S k); repeat split; auto; lia.
  - destruct (IH _ H) as (k & ? & ? & ?).
    exists (S k); repeat split; auto; lia.
Qed.

Lemma last_two_spec (l : list A) :
  (2 <= length l)%nat ->
  exists pre x y, l = pre ++ [x; y] /\ last_two l = [x; y].
Proof.
  intros H. unfold last_two.
  pose proof (firstn_skipn (length l - 2) l) as E.
  remember (skipn (length l - 2) l) as t eqn:Et.
  assert (Hl : length t = 2%nat) by (subst t; rewrite length_skipn; lia).
  destruct t as [|x [|y [|z t]]]; simpl in Hl; try lia.
  exists (firstn (length l - 2) l), x, y; split; auto.
Qed.
End ListFacts.

Lemma compress_sorted (ms : list bool) (xs : list nat) :
  StronglySorted lt xs -> StronglySorted lt (Np.compress ms xs).
Proof.
  revert ms; induction xs as [|y xs IH]; intros [|m ms] H;
    try (rewrite compress_nil_l); try constructor.
  rewrite compress_cons. inv H.
  destruct m; auto. constructor; auto.
  rewrite Forall_forall in *. intros z Hz. eauto using In_compress.
Qed.

Lemma sorted_nth_lt (l : list nat) a b :
  StronglySorted lt l -> (a < b < length l)%nat -> (nth a l 0 < nth b l 0)%nat.
Proof.
  intros H; revert a b; induction H as [|x l H IH Hx]; simpl; intros a b Hab.
  - lia.
  - destruct b as [|b]; [lia|]. destruct a as [|a].
    + rewrite Forall_forall in Hx. apply Hx, nth_In; lia.
    + apply IH; lia.
Qed.

Lemma sorted_nth_le (l : list nat) a b :
  StronglySorted lt l -> (a <= b < length l)%nat -> (nth a l 0 <= nth b l 0)%nat.
Proof.
  intros H Hab. destruct (Nat.eq_dec a b) as [->|Hne]; [lia|].
  pose proof (@sorted_nth_lt l a b H). lia.
Qed.

(** ** Floats: the few facts the development needs *)

Lemma compare_refl_cases (x : float) :
  SFcompare x x = Some Eq \/ SFcompare x x = None.
Proof.
  destruct x as [s|s| |s m e]; simpl; auto.
  - destruct s; auto.
  - left. rewrite Z.compare_refl.
    assert (Pos.compare_cont Eq m m = Eq) as -> by apply Pos.compare_cont_refl.
    destruct s; reflexivity.
Qed.

Lemma ltb_irrefl (x : float) : F64.ltb x x = false.
Proof.
  unfold F64.ltb, SFltb. destruct (compare_refl_cases x) as [-> | ->]; reflexivity.
Qed.

(** Nothing at or above the threshold 0.1 is a zero. *)
Lemma zero_below_height : F64.leb peak_height F64.zero = false.
Proof. reflexivity. Qed.

(** [x - x] is +0.0, or nan when [x] is not finite. *)
Lemma sub_self (x : float) : F64.sub x x = F64.zero \/ F64.sub x x = F64.nan.
Proof.
  destruct x as [s|s| |s m e]; simpl; auto.
  - left. destruct s; reflexivity.
  - right. destruct s; reflexivity.
  - left. unfold F64.sub, SFsub. rewrite Z.sub_diag. reflexivity.
Qed.

(** *** Rounding to 53 bits

    What [binary_round_aux] does to a positive mantissa, in integer
    arithmetic: enough to follow [float(w) * 0.9] for a width [w]. *)

Module F64Facts.

Lemma digits2_pos_bounds (p : positive) :
  2 ^ (Zpos (digits2_pos p) - 1) <= Zpos p < 2 ^ Zpos (digits2_pos p).
Proof.
  induction p as [p IH|p IH|]; cbn [digits2_pos].
  - rewrite Pos2Z.inj_succ.
    replace (Z.succ (Zpos (digits2_pos p)) - 1) with (Z.succ (Zpos (digits2_pos p) - 1)) by lia.
    rewrite !Z.pow_succ_r by lia.
    rewrite (Pos2Z.inj_xI p).
    replace (2 ^ Zpos (digits2_pos p)) with (2 * 2 ^ (Zpos (digits2_pos p) - 1)) in *
      by (rewrite <- Z.pow_succ_r by lia; f_equal; lia).
    lia.
  - rewrite Pos2Z.inj_succ.
    replace (Z.succ (Zpos (digits2_pos p)) - 1) with (Z.succ (Zpos (digits2_pos p) - 1)) by lia.
    rewrite !Z.pow_succ_r by lia.
    rewrite (Pos2Z.inj_xO p).
    replace (2 ^ Zpos (digits2_pos p)) with (2 * 2 ^ (Zpos (digits2_pos p) - 1)) in *
      by (rewrite <- Z.pow_succ_r by lia; f_equal; lia).
    lia.
  - cbn. lia.
Qed.

Lemma digits2_pos_unique (p : positive) (d : Z) :
  2 ^ (d - 1) <= Zpos p < 2 ^ d -> Zpos (digits2_pos p) = d.
Proof.
  intros [Hlo Hhi]. pose proof (digits2_pos_bounds p) as [Blo Bhi].
  set (D := Zpos (digits2_pos p)) in *.
  assert (0 < d).
  { destruct (Z.ltb_spec 0 d); auto.
    destruct (Z.eq_dec d 0) as [->|]; [cbn in Hhi; lia|].
    rewrite Z.pow_neg_r in Hhi by lia. lia. }
  destruct (Z.lt_trichotomy D d) as [Hc|[Hc|Hc]]; auto; exfalso.
  - assert (2 ^ D <= 2 ^ (d - 1)) by (apply Z.pow_le_mono_r; lia). lia.
  - assert (2 ^ d <= 2 ^ (D - 1)) by (apply Z.pow_le_mono_r; lia). lia.
Qed.

Lemma iter_xO (p k : positive) :
  Zpos (Pos.iter xO p k) = Zpos p * 2 ^ Zpos k.
Proof.
  induction k as [|k IH] using Pos.peano_ind.
  - cbn [Pos.iter]. rewrite Pos2Z.inj_xO. change (2 ^ 1) with 2. lia.
  - rewrite Pos.iter_succ, Pos2Z.inj_xO, IH, Pos2Z.inj_succ, Z.pow_succ_r by lia.
    ring.
Qed.

Lemma iter_pos_nat {A} (f : A -> A) (n : positive) : forall x,
  iter_pos f n x = Nat.iter (Pos.to_nat n) f x.
Proof.
  induction n as [n IH|n IH|]; intros x; cbn [iter_pos].
  - rewrite !IH, Pos2Nat.inj_xI, Nat.iter_succ_r.
    replace (2 * Pos.to_nat n)%nat with (Pos.to_nat n + Pos.to_nat n)%nat by lia.
    now rewrite Nat.iter_add.
  - rewrite !IH, Pos2Nat.inj_xO.
    replace (2 * Pos.to_nat n)%nat with (Pos.to_nat n + Pos.to_nat n)%nat by lia.
    now rewrite Nat.iter_add.
  - reflexivity.
Qed.

(** One shift to the right of a mantissa that is not negative. *)
Lemma shr_1_nonneg (m : Z) (r s : bool) :
  0 <= m ->
  shr_1 {| shr_m := m; shr_r := r; shr_s := s |}
  = {| shr_m := m / 2; shr_r := Z.odd m; shr_s := r || s |}.
Proof.
  intros Hm. destruct m as [|p|p]; [reflexivity| |lia].
  destruct p as [p|p|]; cbn [shr_1 Z.odd].
  - f_equal. rewrite Pos2Z.inj_xI.
    apply (Z.div_unique _ _ _ 1); lia.
  - f_equal. rewrite Pos2Z.inj_xO.
    apply (Z.div_unique _ _ _ 0); lia.
  - reflexivity.
Qed.

(** [k + 1] shifts of an exact mantissa: the quotient, the last bit shifted
    out, and whether a bit below it was set. *)
Lemma iter_shr_1 (m : Z) (k : nat) :
  0 <= m ->
  Nat.iter (S k) shr_1 {| shr_m := m; shr_r := false; shr_s := false |}
  = {| shr_m := m / 2 ^ Z.of_nat (S k);
       shr_r := Z.odd (m / 2 ^ Z.of_nat k);
       shr_s := negb (m mod 2 ^ Z.of_nat k =? 0) |}.
Proof.
  intros Hm. induction k as [|k IH].
  - cbn [Nat.iter]. rewrite shr_1_nonneg by assumption.
    change (2 ^ Z.of_nat 1) with 2. change (2 ^ Z.of_nat 0) with 1.
    now rewrite Z.div_1_r, Z.mod_1_r.
  - rewrite Nat.iter_succ, IH.
    assert (Hp : 0 < 2 ^ Z.of_nat k) by (apply Z.pow_pos_nonneg; lia).
    assert (E1 : 2 ^ Z.of_nat (S k) = 2 ^ Z.of_nat k * 2)
      by (rewrite Nat2Z.inj_succ, Z.pow_succ_r by lia; ring).
    assert (E2 : 2 ^ Z.of_nat (S (S k)) = 2 ^ Z.of_nat (S k) * 2)
      by (rewrite (Nat2Z.inj_succ (S k)), Z.pow_succ_r by lia; ring).
    rewrite shr_1_nonneg by (apply Z.div_pos; lia).
    f_equal.
    + rewrite E2, Z.div_div by lia. reflexivity.
    + rewrite E1, Z.rem_mul_r by lia.
      rewrite Zodd_mod.
      pose proof (Z.mod_pos_bound m (2 ^ Z.of_nat k) Hp).
      pose proof (Z.mod_pos_bound (m / 2 ^ Z.of_nat k) 2 ltac:(lia)).
      set (b := (m / 2 ^ Z.of_nat k) mod 2) in *.
      set (r := m mod 2 ^ Z.of_nat k) in *.
      set (P := 2 ^ Z.of_nat k) in *. clearbody b r P.
      destruct (Z.eqb_spec b 1), (Z.eqb_spec r 0), (Z.eqb_spec (r + P * b) 0);
        try reflexivity; exfalso; nia.
Qed.

(** Rounding after the shift gives [round_shift]. *)
Lemma round_after_shift (m : Z) (k : nat) :
  0 <= m ->
  let R := Nat.iter (S k) shr_1 {| shr_m := m; shr_r := false; shr_s := false |} in
  round_nearest_even (shr_m R) (loc_of_shr_record R) = round_shift m (Z.of_nat (S k)).
Proof.
  intros Hm R. subst R. rewrite iter_shr_1 by assumption.
  unfold round_shift. cbn [shr_m].
  assert (Hp : 0 < 2 ^ Z.of_nat k) by (apply Z.pow_pos_nonneg; lia).
  assert (E1 : 2 ^ Z.of_nat (S k) = 2 ^ Z.of_nat k * 2)
    by (rewrite Nat2Z.inj_succ, Z.pow_succ_r by lia; ring).
  cbv zeta. set (q := m / 2 ^ Z.of_nat (S k)).
  rewrite E1, Z.rem_mul_r by lia. rewrite Zodd_mod.
  pose proof (Z.mod_pos_bound m (2 ^ Z.of_nat k) Hp).
  pose proof (Z.mod_pos_bound (m / 2 ^ Z.of_nat k) 2 ltac:(lia)).
  set (b := (m / 2 ^ Z.of_nat k) mod 2) in *.
  set (r := m mod 2 ^ Z.of_nat k) in *.
  set (P := 2 ^ Z.of_nat k) in *. clearbody b r P q.
  destruct (Z.eqb_spec b 1) as [->|Hb], (Z.eqb_spec r 0) as [->|Hr];
    cbn [negb loc_of_shr_record round_nearest_even].
  - replace (2 * (0 + P * 1)) with (P * 2) by ring.
    now rewrite Z.compare_refl.
  - assert (C : (2 * (r + P * 1) ?= P * 2) = Gt) by (apply Z.compare_gt_iff; lia).
    now rewrite C.
  - assert (b = 0) by lia. subst b.
    assert (C : (2 * (0 + P * 0) ?= P * 2) = Lt) by (apply Z.compare_lt_iff; lia).
    now rewrite C.
  - assert (b = 0) by lia. subst b.
    assert (C : (2 * (r + P * 0) ?= P * 2) = Lt) by (apply Z.compare_lt_iff; lia).
    now rewrite C.
Qed.

(** The shift of [shr], by [n] bits or by none. *)
Lemma shr_exact (m e n : Z) :
  0 <= m -> 0 <= n ->
  exists R,
    shr {| shr_m := m; shr_r := false; shr_s := false |} e n = (R, e + n) /\
    round_nearest_even (shr_m R) (loc_of_shr_record R) = round_shift m n.
Proof.
  intros Hm Hn. destruct n as [|p|p]; [| |lia].
  - eexists. split; [cbn [shr]; now rewrite Z.add_0_r|].
    cbn [shr_m loc_of_shr_record round_nearest_even].
    unfold round_shift. rewrite Z.pow_0_r, Z.div_1_r, Z.mod_1_r. reflexivity.
  - eexists. split; [reflexivity|].
    rewrite iter_pos_nat.
    destruct (Pos2Nat.is_succ p) as [k Hk]. rewrite Hk.
    rewrite (round_after_shift k Hm). f_equal. lia.
Qed.


Lemma round_shift_bounds (m n : Z) :
  0 <= n -> 2 ^ (52 + n) <= m < 2 ^ (53 + n) ->
  2 ^ 52 <= round_shift m n <= 2 ^ 53.
Proof.
  intros Hn Hm. rewrite !Z.pow_add_r in Hm by lia.
  assert (Hp : 0 < 2 ^ n) by (apply Z.pow_pos_nonneg; lia).
  assert (Hq : 2 ^ 52 <= m / 2 ^ n < 2 ^ 53).
  { split.
    - apply Z.div_le_lower_bound; lia.
    - apply Z.div_lt_upper_bound; lia. }
  unfold round_shift.
  destruct (2 * (m mod 2 ^ n) ?= 2 ^ n); [destruct (Z.even _)| |]; lia.
Qed.

(** Rounding a positive mantissa of [53 + n] bits to 53 bits, away from the
    limits of the exponent range. *)
Lemma binary_round_aux_finite (m : positive) (e n : Z) :
  0 <= n -> Zpos (digits2_pos m) = 53 + n ->
  -1074 <= e + n -> e + n < 971 ->
  binary_round_aux 53 1024 false (Zpos m) e loc_Exact
  = if round_shift (Zpos m) n <? 2 ^ 53
    then S754_finite false (Z.to_pos (round_shift (Zpos m) n)) (e + n)
    else S754_finite false (Z.to_pos (2 ^ 52)) (e + n + 1).
Proof.
  intros Hn Hd Hlo Hhi.
  pose proof (digits2_pos_bounds m) as Bm. rewrite Hd in Bm.
  replace (53 + n - 1) with (52 + n) in Bm by lia.
  pose proof (round_shift_bounds Hn Bm) as Bc.
  unfold binary_round_aux, shr_fexp.
  cbn [Zdigits2 shr_record_of_loc]. rewrite Hd.
  replace (fexp 53 1024 (53 + n + e) - e) with n
    by (unfold fexp, emin; lia).
  destruct (@shr_exact (Zpos m) e n ltac:(lia) Hn) as (R & -> & ->).
  set (c := round_shift (Zpos m) n) in *. clearbody c.
  destruct (Z.ltb_spec c (2 ^ 53)) as [Hc|Hc].
  - destruct c as [|pc|pc]; try lia.
    assert (Dc : Zpos (digits2_pos pc) = 53)
      by (apply digits2_pos_unique; change (53 - 1) with 52; lia).
    cbn [Zdigits2]. rewrite Dc.
    replace (fexp 53 1024 (53 + (e + n)) - (e + n)) with 0
      by (unfold fexp, emin; lia).
    cbn [shr shr_m Z.to_pos].
    destruct (Z.leb_spec (e + n) (1024 - 53)); [reflexivity|lia].
  - assert (c = 2 ^ 53) by lia. subst c.
    change (Zdigits2 (2 ^ 53)) with 54.
    replace (fexp 53 1024 (54 + (e + n)) - (e + n)) with 1
      by (unfold fexp, emin; lia).
    cbn [shr iter_pos]. change (2 ^ 53) with 9007199254740992.
    cbn [shr_1 shr_m].
    destruct (Z.leb_spec (e + n + 1) (1024 - 53)); [reflexivity|lia].
Qed.

(** [float(w)] for a positive integer of [d <= 53] bits. *)
Lemma of_Z_finite (w d : Z) :
  1 <= d <= 53 -> 2 ^ (d - 1) <= w < 2 ^ d ->
  F64.of_Z w = S754_finite false (Z.to_pos (w * 2 ^ (53 - d))) (d - 53).
Proof.
  intros Hd Hw.
  assert (0 < 2 ^ (d - 1)) by (apply Z.pow_pos_nonneg; lia).
  destruct w as [|p|p]; try lia.
  unfold F64.of_Z, F64.prec, F64.emax, binary_normalize, binary_round.
  rewrite (digits2_pos_unique _ Hw).
  replace (fexp 53 1024 (d + 0)) with (d - 53) by (unfold fexp, emin; lia).
  unfold shl_align.
  assert (Hs : exists mz, (match d - 53 - 0 with
                           | Z.neg k => (Pos.iter xO p k, d - 53)
                           | _ => (p, 0)
                           end) = (mz, d - 53)
                          /\ Zpos mz = Zpos p * 2 ^ (53 - d)).
  { destruct (d - 53 - 0) as [|k|k] eqn:E; try lia.
    - exists p. split; [f_equal; lia|].
      replace (53 - d) with 0 by lia. rewrite Z.pow_0_r. lia.
    - exists (Pos.iter xO p k). split; [reflexivity|].
      rewrite iter_xO. f_equal. f_equal. lia. }
  destruct Hs as (mz & -> & Hmz).
  assert (Bz : 2 ^ (53 - 1) <= Zpos mz < 2 ^ 53).
  { rewrite Hmz.
    replace (2 ^ (53 - 1)) with (2 ^ (d - 1) * 2 ^ (53 - d))
      by (rewrite <- Z.pow_add_r by lia; f_equal; lia).
    replace (2 ^ 53) with (2 ^ d * 2 ^ (53 - d))
      by (rewrite <- Z.pow_add_r by lia; f_equal; lia).
    assert (0 < 2 ^ (53 - d)) by (apply Z.pow_pos_nonneg; lia).
    split; [apply Z.mul_le_mono_nonneg_r|apply Z.mul_lt_mono_pos_r]; lia. }
  rewrite (@binary_round_aux_finite mz (d - 53) 0); try lia.
  - assert (E : round_shift (Zpos mz) 0 = Zpos mz).
    { unfold round_shift. now rewrite Z.pow_0_r, Z.div_1_r, Z.mod_1_r. }
    rewrite E. destruct (Z.ltb_spec (Zpos mz) (2 ^ 53)); [|lia].
    rewrite Z.add_0_r, <- Hmz. reflexivity.
  - now apply digits2_pos_unique.
Qed.

Lemma nine_tenths_bits :
  nine_tenths = S754_finite false (Z.to_pos nine_tenths_mantissa) (-53).
Proof. reflexivity. Qed.

(** [int(w * 0.9)], for [w] of [d] bits and a product of [53 + n] bits. *)
Lemma ignore_right_value (w d n : Z) :
  1 <= d <= 51 -> 2 ^ (d - 1) <= w < 2 ^ d ->
  0 <= n <= 53 ->
  2 ^ (52 + n) <= w * 2 ^ (53 - d) * nine_tenths_mantissa < 2 ^ (53 + n) ->
  ignore_right w
  = Ok (if round_shift (w * 2 ^ (53 - d) * nine_tenths_mantissa) n <? 2 ^ 53
        then round_shift (w * 2 ^ (53 - d) * nine_tenths_mantissa) n
             / 2 ^ (106 - d - n)
        else 2 ^ 52 / 2 ^ (105 - d - n)).
Proof.
  intros Hd Hw Hn HM.
  assert (0 < 2 ^ (d - 1)) by (apply Z.pow_pos_nonneg; lia).
  assert (0 < 2 ^ (53 - d)) by (apply Z.pow_pos_nonneg; lia).
  unfold ignore_right. rewrite (@of_Z_finite w d) by lia.
  rewrite nine_tenths_bits.
  unfold F64.mul, F64.prec, F64.emax, SFmul. cbn [xorb].
  set (M := w * 2 ^ (53 - d) * nine_tenths_mantissa) in *.
  assert (EM : Zpos (Z.to_pos (w * 2 ^ (53 - d)) * Z.to_pos nine_tenths_mantissa) = M).
  { rewrite Pos2Z.inj_mul, !Z2Pos.id; [reflexivity|reflexivity|nia]. }
  rewrite (@binary_round_aux_finite _ (d - 53 + -53) n); try lia.
  - rewrite EM.
    pose proof (@round_shift_bounds M n ltac:(lia) HM) as Bc.
    assert (0 < 2 ^ 52) by reflexivity.
    unfold py_int, F64.trunc.
    destruct (Z.ltb_spec (round_shift M n) (2 ^ 53)).
    + destruct (Z.leb_spec 0 (d - 53 + -53 + n)); [lia|].
      rewrite Z2Pos.id by lia. do 2 f_equal. f_equal. lia.
    + destruct (Z.leb_spec 0 (d - 53 + -53 + n + 1)); [lia|].
      rewrite Z2Pos.id by lia. do 2 f_equal. f_equal. lia.
  - apply digits2_pos_unique. rewrite EM.
    replace (53 + n - 1) with (52 + n) by lia. exact HM.
Qed.

End F64Facts.

(** [np.argsort] returns every position exactly once. *)
Lemma argsort_perm (v : list float) :
  Permutation (Np.argsort v) (seq 0 (length v)).
Proof.
  unfold Np.argsort. generalize (seq 0 (length v)) as l.
  induction l as [|i l IH]; simpl; auto.
  transitivity (i :: fold_right (Np.insert_by v) [] l); [|auto].
  generalize (fold_right (Np.insert_by v) [] l) as s.
  clear. induction s as [|j s IH]; simpl; auto.
  destruct (F64.ltb _ _); auto.
  rewrite IH. apply perm_swap.
Qed.

(** ** find_peaks *)

Module ScipyFacts.
Import Scipy.

Lemma plateau_end_ge fuel x i i_ahead i_max :
  (i_ahead <= plateau_end fuel x i i_ahead i_max)%nat.
Proof.
  revert i_ahead; induction fuel as [|fuel IH]; simpl; intros i_ahead; auto.
  destruct (_ && _); auto. specialize (IH (S i_ahead)). lia.
Qed.

(** The scan stops as soon as the samples differ, so more fuel than
    samples left changes nothing. *)
Lemma plateau_end_fuel fuel fuel' x i i_ahead i_max :
  (i_max - i_ahead <= fuel)%nat -> (i_max - i_ahead <= fuel')%nat ->
  plateau_end fuel x i i_ahead i_max = plateau_end fuel' x i i_ahead i_max.
Proof.
  revert fuel' i_ahead; induction fuel as [|fuel IH];
    intros [|fuel'] i_ahead H H'; simpl; auto.
  - destruct (Nat.ltb_spec i_ahead i_max); [lia|reflexivity].
  - destruct (Nat.ltb_spec i_ahead i_max); [lia|reflexivity].
  - destruct (Nat.ltb_spec i_ahead i_max); simpl; auto.
    destruct (F64.eqb _ _); auto. apply IH; lia.
Qed.

Lemma local_maxima_from_fuel fuel fuel' x i i_max :
  (i_max - i <= fuel)%nat -> (i_max - i <= fuel')%nat ->
  local_maxima_from fuel x i i_max = local_maxima_from fuel' x i i_max.
Proof.
  revert fuel' i; induction fuel as [|fuel IH]; intros [|fuel'] i H H';
    simpl; auto;
    destruct (Nat.ltb_spec i i_max); try lia; auto.
  pose proof (plateau_end_ge (i_max - i) x i (i + 1) i_max).
  destruct (F64.ltb _ _); [destruct (F64.ltb _ _); [apply (f_equal (cons _))|]|];
    apply IH; lia.
Qed.

(** The maxima come out in increasing order, none before [i]. *)
Lemma local_maxima_from_sorted fuel x i i_max :
  StronglySorted lt (local_maxima_from fuel x i i_max) /\
  Forall (fun p => (i <= p)%nat) (local_maxima_from fuel x i i_max).
Proof.
  revert i; induction fuel as [|fuel IH]; cbn [local_maxima_from]; intros i.
  - split; constructor.
  - destruct (i <? i_max)%nat; [|split; constructor].
    assert (Hstep : StronglySorted lt (local_maxima_from fuel x (i + 1) i_max) /\
                    Forall (fun p => (i <= p)%nat)
                      (local_maxima_from fuel x (i + 1) i_max)).
    { destruct (IH (i + 1)%nat) as [S1 F1]; split; auto.
      eapply Forall_impl; [|exact F1]. simpl; intros; lia. }
    destruct (F64.ltb _ _); auto.
    set (ia := plateau_end (i_max - i) x i (i + 1) i_max).
    pose proof (plateau_end_ge (i_max - i) x i (i + 1) i_max) as Hge.
    fold ia in Hge. clearbody ia.
    destruct (F64.ltb _ _); auto.
    destruct (IH (ia + 1)%nat) as [S1 F1].
    assert (Hlo : (i <= (i + (ia - 1)) / 2)%nat).
    { apply Nat.div_le_lower_bound; lia. }
    assert (Hhi : ((i + (ia - 1)) / 2 < ia + 1)%nat).
    { apply Nat.Div0.div_lt_upper_bound; lia. }
    split; constructor; auto.
    + eapply Forall_impl; [|exact F1]. cbv beta; intros; lia.
    + eapply Forall_impl; [|exact F1]. cbv beta; intros; lia.
Qed.

Lemma local_maxima_sorted x : StronglySorted lt (local_maxima_1d x).
Proof. apply local_maxima_from_sorted. Qed.

(** A sequence without a strict rise has no maximum. *)
Lemma local_maxima_flat fuel x i i_max :
  (forall a b, F64.ltb (Np.get x a) (Np.get x b) = false) ->
  local_maxima_from fuel x i i_max = [].
Proof.
  intros Hflat; revert i; induction fuel as [|fuel IH]; simpl; intros i; auto.
  rewrite Hflat. destruct (i <? i_max)%nat; auto.
Qed.

(** *** The distance filter *)

Section Distance.
Variable peaks : list nat.
Variable distance : nat.
Hypothesis peaks_sorted : StronglySorted lt peaks.

Let P (k : nat) : nat := nth k peaks 0%nat.

Lemma flag_earlier_spec j k1 keep :
  (k1 <= j)%nat -> (j < length peaks)%nat -> length keep = length peaks ->
  let keep' := flag_earlier peaks j distance k1 keep in
  length keep' = length peaks /\
  (forall k, nth k keep' false = true -> nth k keep false = true) /\
  (forall k, (k1 <= k)%nat -> nth k keep' false = nth k keep false) /\
  (forall k, (k < k1)%nat -> (P j - P k < distance)%nat ->
             nth k keep' false = false).
Proof.
  revert keep; induction k1 as [|k IH]; simpl; intros keep Hk Hj Hlen.
  - repeat split; auto. intros; lia.
  - destruct (Nat.ltb_spec (nth j peaks 0 - nth k peaks 0) distance)%nat as [Hc|Hc].
    + destruct (IH (list_set keep k false)) as (L & M & U & F);
        try lia; [rewrite list_set_length; auto|].
      repeat split; auto.
      * intros k' Hk'. apply M in Hk'.
        destruct (Nat.eq_dec k k') as [->|Hne].
        -- rewrite nth_list_set_same in Hk' by lia. discriminate.
        -- rewrite nth_list_set_other in Hk' by auto. exact Hk'.
      * intros k' Hk'. rewrite U by lia. apply nth_list_set_other; lia.
      * intros k' Hk' Hd. destruct (Nat.eq_dec k' k) as [->|Hne].
        -- rewrite U by lia. apply nth_list_set_same; lia.
        -- apply F; auto; lia.
    + repeat split; auto. intros k' Hk' Hd. exfalso.
      assert (P k' <= P k)%nat by (apply sorted_nth_le; auto; lia).
      unfold P in *. lia.
Qed.

Lemma flag_later_spec j fuel k keep :
  (length peaks - k <= fuel)%nat -> (j < k)%nat ->
  length keep = length peaks ->
  let keep' := flag_later fuel peaks j distance k keep in
  length keep' = length peaks /\
  (forall i, nth i keep' false = true -> nth i keep false = true) /\
  (forall i, (i < k)%nat -> nth i keep' false = nth i keep false) /\
  (forall i, (k <= i < length peaks)%nat -> (P i - P j < distance)%nat ->
             nth i keep' false = false).
Proof.
  revert k keep; induction fuel as [|fuel IH]; simpl; intros k keep Hf Hj Hlen.
  - repeat split; auto. intros; lia.
  - destruct (Nat.ltb_spec k (length peaks)) as [Hk|Hk]; simpl.
    2:{ repeat split; auto. intros; lia. }
    destruct (Nat.ltb_spec (nth k peaks 0 - nth j peaks 0) distance)%nat as [Hc|Hc].
    + destruct (IH (S k) (list_set keep k false)) as (L & M & U & F);
        try lia; [rewrite list_set_length; auto|].
      repeat split; auto.
      * intros i Hi. apply M in Hi.
        destruct (Nat.eq_dec k i) as [->|Hne].
        -- rewrite nth_list_set_same in Hi by lia. discriminate.
        -- rewrite nth_list_set_other in Hi by auto. exact Hi.
      * intros i Hi. rewrite U by lia. apply nth_list_set_other; lia.
      * intros i Hi Hd. destruct (Nat.eq_dec i k) as [->|Hne].
        -- rewrite U by lia. apply nth_list_set_same; lia.
        -- apply F; auto; lia.
    + repeat split; auto. intros i Hi Hd. exfalso.
      assert (P k <= P i)%nat by (apply sorted_nth_le; auto; lia).
      unfold P in *. lia.
Qed.

(** Visiting peak [j] only clears flags, never that of [j] itself, and
    leaves no flagged neighbour closer than [distance] to a kept [j]. *)
Lemma visit_spec keep j :
  (j < length peaks)%nat -> length keep = length peaks ->
  let keep' := visit peaks distance keep j in
  length keep' = length peaks /\
  (forall k, nth k keep' false = true -> nth k keep false = true) /\
  (nth j keep' false = true ->
   forall k, (k < length peaks)%nat -> close peaks distance j k -> nth k keep' false = false).
Proof.
  intros Hj Hlen. unfold visit.
  destruct (nth j keep false) eqn:Ej.
  2:{ repeat split; auto. intros H; congruence. }
  destruct (@flag_earlier_spec j j keep) as (L1 & M1 & U1 & F1); auto.
  set (keep1 := flag_earlier peaks j distance j keep) in *.
  destruct (@flag_later_spec j (length peaks - (j + 1)) (j + 1) keep1)
    as (L2 & M2 & U2 & F2); auto; try lia.
  repeat split; auto.
  intros _ k Hk [[Hkj Hd]|[Hkj Hd]].
  - rewrite U2 by lia. apply F1; auto.
  - apply F2; auto; lia.
Qed.

Lemma visit_all order : forall keep visited,
  (forall j, In j order -> (j < length peaks)%nat) ->
  settled peaks distance keep visited ->
  settled peaks distance (fold_left (visit peaks distance) order keep) (rev order ++ visited).
Proof.
  induction order as [|j order IH]; simpl; intros keep visited Hin Hs; auto.
  destruct Hs as [Hlen Hs].
  destruct (@visit_spec keep j) as (L & M & F); auto.
  rewrite <- app_assoc. simpl. apply IH; auto.
  split; auto.
  intros j' [<-|Hj'] Hk k Hlt Hc.
  - apply F; auto.
  - destruct (nth k (visit peaks distance keep j) false) eqn:Ek; auto.
    apply M in Ek. apply M in Hk.
    rewrite (Hs j' Hj' Hk k Hlt Hc) in Ek. discriminate.
Qed.

(** Two peaks kept by [_select_by_peak_distance] are never closer than
    [distance]. *)
Lemma select_by_peak_distance_far priority a b :
  length priority = length peaks ->
  let keep := select_by_peak_distance peaks priority distance in
  (a < length peaks)%nat -> (b < length peaks)%nat ->
  nth a keep false = true -> nth b keep false = true -> ~ close peaks distance a b.
Proof.
  intros Hlen keep Ha Hb Ka Kb Hc.
  pose proof (argsort_perm priority) as Hperm.
  assert (Hs : settled peaks distance keep (rev (rev (Np.argsort priority)) ++ [])).
  { apply visit_all.
    - intros j Hj. apply in_rev in Hj.
      apply (Permutation_in _ Hperm) in Hj. apply in_seq in Hj. lia.
    - split; [apply repeat_length|]. intros j [] . }
  destruct Hs as [_ Hs].
  rewrite (Hs a) in Kb; auto; try discriminate.
  rewrite app_nil_r, rev_involutive.
  apply (Permutation_in _ (Permutation_sym Hperm)), in_seq. lia.
Qed.
End Distance.

(** *** find_peaks as a whole *)

Lemma find_peaks_sorted x h d : StronglySorted lt (find_peaks x h d).
Proof.
  unfold find_peaks. do 2 apply compress_sorted. apply local_maxima_sorted.
Qed.

Lemma find_peaks_height x h d p :
  In p (find_peaks x h d) -> F64.leb h (Np.get x p) = true.
Proof.
  unfold find_peaks. intros H. apply In_compress in H.
  apply (In_compress_nth _ _ _ 0%nat) in H. destruct H as (k & Hk & <- & Hm).
  unfold select_by_height in Hm.
  rewrite (nth_indep _ false (F64.leb h (Np.get x 0%nat))) in Hm
    by (rewrite length_map; auto).
  rewrite (map_nth (fun p => F64.leb h (Np.get x p))) in Hm. exact Hm.
Qed.

Lemma find_peaks_far x h d p q :
  In p (find_peaks x h d) -> In q (find_peaks x h d) -> (p < q)%nat ->
  (d <= q - p)%nat.
Proof.
  unfold find_peaks.
  set (pk := Np.compress (select_by_height x h (local_maxima_1d x)) (local_maxima_1d x)).
  assert (Hsorted : StronglySorted lt pk)
    by (apply compress_sorted, local_maxima_sorted).
  intros Hp Hq Hlt.
  apply (In_compress_nth _ _ _ 0%nat) in Hp, Hq.
  destruct Hp as (a & Ha & <- & Ka), Hq as (b & Hb & <- & Kb).
  assert (Hab : (a < b)%nat).
  { destruct (Nat.lt_ge_cases a b) as [|Hge]; auto.
    pose proof (@sorted_nth_le pk b a Hsorted). lia. }
  destruct (Nat.le_gt_cases d (nth b pk 0 - nth a pk 0)%nat) as [|Hc]; auto.
  exfalso.
  eapply (@select_by_peak_distance_far pk d Hsorted (Np.take F64.zero x pk) a b);
    eauto.
  - unfold Np.take. apply length_map.
  - right. split; auto.
Qed.

Lemma find_peaks_flat x h d :
  (forall a b, F64.ltb (Np.get x a) (Np.get x b) = false) ->
  find_peaks x h d = [].
Proof.
  intros H. unfold find_peaks, local_maxima_1d.
  rewrite local_maxima_flat by auto. reflexivity.
Qed.

End ScipyFacts.

(* ================================================================== *)
(** ** Stage 1: the edge detector *)
(* ================================================================== *)

(** *** [int(width * 0.9)] *)

Lemma all_from_spec n : forall z f,
  all_from n z f = true -> forall x, z <= x < z + Z.of_nat n -> f x = true.
Proof.
  induction n as [|n IH]; intros z f H x Hx; [lia|].
  cbn [all_from] in H. apply andb_prop in H. destruct H as [Hz Hr].
  destruct (Z.eq_dec x z) as [->|Hne]; auto.
  apply (IH (z + 1) f Hr). lia.
Qed.

Lemma ignore_right_checked :
  all_from (Z.to_nat (max_width + 1)) 0 ignore_right_is_floor = true.
Proof. vm_compute. reflexivity. Qed.

(** The binary64 product truncates to the exact floor of nine tenths of the
    width, for every width up to [max_width]. *)
Lemma ignore_right_exact (w : Z) :
  0 <= w <= max_width -> ignore_right w = Ok (9 * w / 10).
Proof.
  intros Hw. pose proof ignore_right_checked as H.
  assert (Hc : ignore_right_is_floor w = true).
  { apply (@all_from_spec _ _ _ H w). rewrite Z2Nat.id; unfold max_width in *; lia. }
  unfold ignore_right_is_floor in Hc.
  destruct (ignore_right w) as [v|msg]; [|discriminate Hc].
  f_equal. now apply Z.eqb_eq.
Qed.

(** Beyond the widths evaluated, the product is followed through its
    rounding.  For a width [w] of [d] bits the mantissa of [float(w)] is
    [w * 2^(53-d)] and the product with the mantissa of 0.9 has 105 or 106
    bits; [ignore_right_value] gives [int] of the rounded product, and what
    is left is linear integer arithmetic, one bit length at a time. *)

(** Closed powers of two, evaluated. *)
Ltac eval_powers :=
  repeat match goal with
         | |- context [2 ^ ?e] =>
             let v := eval vm_compute in (2 ^ e) in change (2 ^ e) with v
         | H : context [2 ^ ?e] |- _ =>
             let v := eval vm_compute in (2 ^ e) in change (2 ^ e) with v in H
         end.

(** The rounded and truncated product is [9 * w / 10]. *)
Ltac floor_of_rounded :=
  f_equal; unfold round_shift; cbv zeta;
  unfold nine_tenths_mantissa in *; eval_powers;
  match goal with
  | |- context [?a ?= ?b] => destruct (Z.compare_spec a b)
  end;
  try match goal with
      | |- context [Z.even ?q] => destruct (Z.even q)
      end;
  match goal with
  | |- context [?a <? ?b] => destruct (Z.ltb_spec a b)
  end;
  Z.div_mod_to_equations; lia.

(** A width of [d] bits: the product has 105 bits or 106. *)
Ltac product_of_bits w d :=
  let HM := fresh "HM" in
  destruct (Z.lt_ge_cases (w * 2 ^ (53 - d) * nine_tenths_mantissa) (2 ^ 105))
    as [HM|HM];
  [ rewrite (@F64Facts.ignore_right_value w d 52)
      by (unfold nine_tenths_mantissa in *; eval_powers; lia)
  | rewrite (@F64Facts.ignore_right_value w d 53)
      by (unfold nine_tenths_mantissa in *; eval_powers; lia) ];
  floor_of_rounded.

(** The [n] bit lengths from [lo] on. *)
Ltac each_bit_length w d lo n :=
  lazymatch n with
  | O => exfalso; lia
  | S ?k =>
      let v := eval vm_compute in lo in
      let v' := eval vm_compute in (lo + 1) in
      destruct (Z.eq_dec d v) as [->|?];
      [ eval_powers; product_of_bits w v | each_bit_length w d v' k ]
  end.

(** [int(width * 0.9)] is the exact floor of nine tenths of the width for
    every width below [float_width_limit]. *)
Lemma ignore_right_floor (w : Z) :
  0 <= w < float_width_limit -> ignore_right w = Ok (9 * w / 10).
Proof.
  intros Hw. unfold float_width_limit in Hw.
  destruct (Z.le_gt_cases w max_width) as [Hs|Hs];
    [apply ignore_right_exact; lia|].
  unfold max_width in Hs.
  destruct w as [|p|p]; try lia.
  pose proof (F64Facts.digits2_pos_bounds p) as Hd.
  set (d := Zpos (digits2_pos p)) in *.
  assert (Hr : 17 <= d <= 51).
  { assert (0 < d) by reflexivity.
    split.
    - destruct (Z.le_gt_cases 17 d); auto.
      assert (2 ^ d <= 2 ^ 16) by (apply Z.pow_le_mono_r; lia).
      change (2 ^ 16) with 65536 in *. lia.
    - destruct (Z.le_gt_cases d 51); auto.
      assert (2 ^ 51 <= 2 ^ (d - 1)) by (apply Z.pow_le_mono_r; lia).
      change (2 ^ 51) with 2251799813685248 in *. lia. }
  clearbody d. generalize dependent (Zpos p). intros w Hw Hs Hd.
  each_bit_length w d 17 35%nat.
Qed.

(** At [float_width_limit] it is not: the product rounds up to the next
    integer. *)
Lemma ignore_right_at_limit :
  ignore_right float_width_limit = Ok (9 * float_width_limit / 10 + 1).
Proof. vm_compute. reflexivity. Qed.

(** *** The gradient exists from two columns on *)

Lemma avg_colors_length (a : image) : length (avg_colors a) = width a.
Proof. unfold avg_colors. now rewrite length_map, length_seq. Qed.

Lemma grayscale_ok (a : image) :
  (1 <= width a)%nat ->
  exists g, grayscale a = Ok g /\ length g = width a.
Proof.
  intros Hw. unfold grayscale.
  pose proof (avg_colors_length a) as Hl.
  destruct (avg_colors a) as [|c cs]; simpl in Hl; [lia|].
  simpl. eexists; split; [reflexivity|].
  simpl. rewrite !length_map. exact Hl.
Qed.

Lemma gradient_ok (f : list float) :
  (2 <= length f)%nat ->
  exists d, Np.gradient f = Ok d /\ length d = length f.
Proof.
  intros H. unfold Np.gradient.
  destruct (Nat.ltb_spec (length f) 2); [lia|].
  eexists; split; [reflexivity|]. now rewrite length_map, length_seq.
Qed.

Lemma gradient_magnitude_ok (a : image) :
  (2 <= width a)%nat ->
  exists gm, gradient_magnitude a = Ok gm /\ length gm = width a.
Proof.
  intros Hw. unfold gradient_magnitude.
  destruct (grayscale_ok a) as (g & -> & Hg); [lia|].
  destruct (gradient_ok g) as (d & Hd & Hl); [lia|].
  simpl. rewrite Hd. simpl. eexists; split; [reflexivity|].
  unfold Np.absolute. rewrite length_map. congruence.
Qed.

(** With a single column [np.gradient] raises and no edge pair is produced. *)
Lemma detect_edges_one_column (a : image) :
  width a = 1%nat -> exists msg, detect_edges a = Raise msg.
Proof.
  intros Hw. unfold detect_edges, gradient_magnitude.
  destruct (grayscale_ok a) as (g & -> & Hg); [lia|].
  simpl. unfold Np.gradient.
  destruct (Nat.ltb_spec (length g) 2); [|lia].
  simpl. eexists; reflexivity.
Qed.

(** *** The zeroed tail keeps peaks away *)

Lemma get_zero_from (k : nat) (xs : list float) (c : nat) :
  (k <= c)%nat -> Np.get (Np.zero_from k xs) c = F64.zero.
Proof.
  intros H. unfold Np.get, Np.zero_from.
  destruct (Nat.lt_ge_cases c (length xs)) as [Hc|Hc].
  - rewrite app_nth2 by (rewrite length_firstn; lia).
    rewrite length_firstn, nth_repeat_lt; auto.
    rewrite Nat.min_l by lia. lia.
  - apply nth_overflow. rewrite length_app, length_firstn, repeat_length. lia.
Qed.

Lemma peak_below_ignore_right (gm : list float) (ir : Z) (p : nat) :
  In p (peaks_of (modified_gradient gm ir)) -> Z.of_nat p < ir.
Proof.
  intros Hp. unfold peaks_of in Hp.
  apply (@ScipyFacts.find_peaks_height _ peak_height peak_distance p) in Hp.
  destruct (Z.lt_ge_cases (Z.of_nat p) ir) as [|Hge]; auto.
  unfold modified_gradient in Hp.
  rewrite get_zero_from in Hp by lia.
  rewrite zero_below_height in Hp. discriminate.
Qed.

(** *** The two strongest peaks *)

Lemma strongest_two (mg : list float) (peaks : list nat) :
  StronglySorted lt peaks -> (2 <= length peaks)%nat ->
  exists p q, In p peaks /\ In q peaks /\ p <> q /\
              strongest_peaks mg peaks = [Z.of_nat p; Z.of_nat q].
Proof.
  intros Hs Hlen. unfold strongest_peaks.
  set (v := Np.take F64.zero mg peaks).
  assert (Hv : length v = length peaks) by (apply length_map).
  pose proof (argsort_perm v) as Hperm. rewrite Hv in Hperm.
  destruct (last_two_spec (Np.argsort v)) as (pre & i & j & E & ->).
  { rewrite (Permutation_length Hperm), length_seq. exact Hlen. }
  assert (Hnd : NoDup (pre ++ [i; j])).
  { rewrite <- E. apply (Permutation_NoDup (Permutation_sym Hperm)), seq_NoDup. }
  apply NoDup_app_remove_l in Hnd.
  assert (Hij : i <> j).
  { inv Hnd. intros ->. apply H1. now left. }
  assert (Hin : forall k, In k [i; j] -> (k < length peaks)%nat).
  { intros k Hk.
    assert (In k (seq 0 (length peaks))) as Hk'.
    { apply (Permutation_in _ Hperm). rewrite E. apply in_or_app; now right. }
    apply in_seq in Hk'. lia. }
  assert (Hi : (i < length peaks)%nat) by (apply Hin; now left).
  assert (Hj : (j < length peaks)%nat) by (apply Hin; right; now left).
  exists (nth i peaks 0%nat), (nth j peaks 0%nat).
  repeat split; try (apply nth_In; assumption); try reflexivity.
  destruct (Nat.lt_ge_cases i j).
  - pose proof (@sorted_nth_lt peaks i j Hs). lia.
  - pose proof (@sorted_nth_lt peaks j i Hs). lia.
Qed.

(** In the branch [len(peaks) >= 2] both edges are detected peaks, the left
    one strictly before the right one. *)
Lemma peak_edges_spec (mg : list float) (peaks : list nat) :
  StronglySorted lt peaks -> (2 <= length peaks)%nat ->
  exists p q, In p peaks /\ In q peaks /\ (p < q)%nat /\
              peak_edges mg peaks = (Z.of_nat p, Z.of_nat q).
Proof.
  intros Hs Hlen.
  destruct (strongest_two mg Hs Hlen) as (p & q & Hp & Hq & Hne & E).
  unfold peak_edges. rewrite E. simpl.
  destruct (Nat.lt_ge_cases p q).
  - exists p, q. repeat split; auto. f_equal; lia.
  - exists q, p. repeat split; auto; [lia|]. f_equal; lia.
Qed.

Lemma detect_edges_unfold (a : image) (gm : list float) (ir : Z) :
  gradient_magnitude a = Ok gm ->
  ignore_right (Z.of_nat (width a)) = Ok ir ->
  detect_edges a
  = Ok (select_edges (Z.of_nat (width a)) ir (modified_gradient gm ir)
          (peaks_of (modified_gradient gm ir))).
Proof. intros Hg Hi. unfold detect_edges. rewrite Hg; simpl. now rewrite Hi. Qed.

Lemma peaks_sorted (mg : list float) : StronglySorted lt (peaks_of mg).
Proof. unfold peaks_of. apply ScipyFacts.find_peaks_sorted. Qed.

(** Any two detected peaks are at least 20 columns apart. *)
Lemma peaks_far (mg : list float) (p q : nat) :
  In p (peaks_of mg) -> In q (peaks_of mg) -> (p < q)%nat -> (20 <= q - p)%nat.
Proof. unfold peaks_of. apply ScipyFacts.find_peaks_far. Qed.

(** The branch [len(peaks) >= 2]: the edges returned are two detected
    peaks, left before right, both below [ignore_right]. *)
Lemma peak_branch (a : image) (gm : list float) (ir : Z) :
  gradient_magnitude a = Ok gm ->
  ignore_right (Z.of_nat (width a)) = Ok ir ->
  (2 <= length (peaks_of (modified_gradient gm ir)))%nat ->
  exists p q,
    In p (peaks_of (modified_gradient gm ir)) /\
    In q (peaks_of (modified_gradient gm ir)) /\
    (p < q)%nat /\
    peak_edges (modified_gradient gm ir) (peaks_of (modified_gradient gm ir))
    = (Z.of_nat p, Z.of_nat q) /\
    Z.of_nat p < ir /\ Z.of_nat q < ir /\
    detect_edges a = Ok (Z.of_nat p, Z.of_nat q).
Proof.
  intros Hg Hi Hn.
  destruct (peak_edges_spec (modified_gradient gm ir) (peaks_sorted _) Hn)
    as (p & q & Hp & Hq & Hpq & E).
  pose proof (peak_below_ignore_right _ _ _ Hp) as Bp.
  pose proof (peak_below_ignore_right _ _ _ Hq) as Bq.
  exists p, q. repeat split; auto.
  rewrite (detect_edges_unfold _ Hg Hi). unfold select_edges.
  destruct (Nat.leb_spec 2 (length (peaks_of (modified_gradient gm ir)))); [|lia].
  rewrite E. do 2 f_equal. lia.
Qed.

(** C7.  When at least two peaks are found, both edges are peaks of the
    edge strength whose columns from [ignore_right] on are zero; both
    therefore lie strictly below [ignore_right], and the clamp
    [min(right_edge, ignore_right)] of line 67 returns the right edge
    unchanged. *)
Theorem peak_edges_never_clamped (a : image) (gm : list float) (ir : Z) :
  gradient_magnitude a = Ok gm ->
  ignore_right (Z.of_nat (width a)) = Ok ir ->
  (2 <= length (peaks_of (modified_gradient gm ir)))%nat ->
  (forall c, ir <= Z.of_nat c -> Np.get (modified_gradient gm ir) c = F64.zero) /\
  exists p q,
    In p (peaks_of (modified_gradient gm ir)) /\
    In q (peaks_of (modified_gradient gm ir)) /\
    peak_edges (modified_gradient gm ir) (peaks_of (modified_gradient gm ir))
    = (Z.of_nat p, Z.of_nat q) /\
    Z.of_nat p < ir /\ Z.of_nat q < ir /\
    Z.min (Z.of_nat q) ir = Z.of_nat q /\
    detect_edges a = Ok (Z.of_nat p, Z.of_nat q).
Proof.
  intros Hg Hi Hn. split.
  - intros c Hc. unfold modified_gradient. apply get_zero_from. lia.
  - destruct (peak_branch a Hg Hi Hn) as (p & q & Hp & Hq & _ & E & Bp & Bq & Hd).
    exists p, q. repeat split; auto. lia.
Qed.

(** C10.  When at least two peaks are found, the returned edges are two
    different detected peaks; detected peaks are pairwise at least 20 columns
    apart, so the spectrum is at least 20 columns wide. *)
Theorem peak_edges_far_apart (a : image) (gm : list float) (ir l r : Z) :
  gradient_magnitude a = Ok gm ->
  ignore_right (Z.of_nat (width a)) = Ok ir ->
  (2 <= length (peaks_of (modified_gradient gm ir)))%nat ->
  detect_edges a = Ok (l, r) ->
  (exists p q, In p (peaks_of (modified_gradient gm ir)) /\
               In q (peaks_of (modified_gradient gm ir)) /\
               p <> q /\ l = Z.of_nat p /\ r = Z.of_nat q) /\
  (forall p q, In p (peaks_of (modified_gradient gm ir)) ->
               In q (peaks_of (modified_gradient gm ir)) ->
               (p < q)%nat -> (20 <= q - p)%nat) /\
  20 <= r - l.
Proof.
  intros Hg Hi Hn He.
  destruct (peak_branch a Hg Hi Hn) as (p & q & Hp & Hq & Hpq & _ & _ & _ & Hd).
  rewrite Hd in He. inv He.
  pose proof (peaks_far _ Hp Hq Hpq) as Hfar.
  repeat split.
  - exists p, q. repeat split; auto. lia.
  - intros p0 q0. apply peaks_far.
  - lia.
Qed.

(** C1 fails at width 4: the edges are (1, 3) and 3 exceeds
    floor(0.9 * 4) - 1 = 2. *)
Lemma four_columns_edges :
  well_formed four_columns /\ width four_columns = 4%nat /\
  detect_edges four_columns = Ok (1, 3) /\ ~ claimed_edge_pair four_columns.
Proof.
  assert (E : detect_edges four_columns = Ok (1, 3)) by (vm_compute; reflexivity).
  split; [|split; [|split]]; auto.
  - unfold well_formed, four_columns, height, width; simpl.
    repeat split; try lia. repeat constructor.
  - intros (l & r & H & _ & Hr & _). rewrite E in H. inv H.
    vm_compute in Hr. apply Hr. reflexivity.
Qed.

(** C1, amended.  From two columns on and below [float_width_limit]
    columns (or beyond, wherever the boundary [int(width * 0.9)] of line 54
    still is the floor of nine tenths of the width), that boundary is
    floor(0.9 * width) and the detector returns a pair with
    0 <= left < right <= floor(0.9 * width).  The right edge is at most
    floor(0.9 * width) - 1 when two peaks were found, and in the fallback
    branch from width 5 on. *)
Theorem edge_pair_bounds (a : image) :
  2 <= Z.of_nat (width a) ->
  Z.of_nat (width a) < float_width_limit \/
  ignore_right (Z.of_nat (width a)) = Ok (9 * Z.of_nat (width a) / 10) ->
  ignore_right (Z.of_nat (width a)) = Ok (9 * Z.of_nat (width a) / 10) /\
  exists l r,
    detect_edges a = Ok (l, r) /\
    0 <= l /\ l < r /\ r <= 9 * Z.of_nat (width a) / 10 /\
    (5 <= Z.of_nat (width a) -> r <= 9 * Z.of_nat (width a) / 10 - 1) /\
    (forall gm, gradient_magnitude a = Ok gm ->
       (2 <= length (peaks_of
                       (modified_gradient gm (9 * Z.of_nat (width a) / 10))))%nat ->
       r <= 9 * Z.of_nat (width a) / 10 - 1).
Proof.
  intros Hw Hb.
  assert (Hi : ignore_right (Z.of_nat (width a))
               = Ok (9 * Z.of_nat (width a) / 10)).
  { destruct Hb as [Hb|Hb]; [apply ignore_right_floor; lia|exact Hb]. }
  split; [exact Hi|]. clear Hb.
  destruct (gradient_magnitude_ok a) as (gm & Hg & _); [lia|].
  set (w := Z.of_nat (width a)) in *. set (ir := 9 * w / 10) in *.
  set (mg := modified_gradient gm ir).
  destruct (Nat.le_gt_cases 2 (length (peaks_of mg))) as [Hn|Hn].
  - destruct (peak_branch a Hg Hi Hn) as (p & q & _ & _ & Hpq & _ & Bp & Bq & Hd).
    exists (Z.of_nat p), (Z.of_nat q). repeat split; auto; try lia.
  - exists (w / 4), (Z.min (3 * w / 4) ir).
    assert (Hd : detect_edges a = Ok (w / 4, Z.min (3 * w / 4) ir)).
    { rewrite (detect_edges_unfold _ Hg Hi). fold w mg. unfold select_edges.
      destruct (Nat.leb_spec 2 (length (peaks_of mg))); [lia|reflexivity]. }
    assert (H4 : 0 <= w / 4 /\ w / 4 < 3 * w / 4 /\ w / 4 < ir).
    { unfold ir. clear -Hw.
      repeat split; Z.div_mod_to_equations; lia. }
    repeat split; auto; try lia.
    + intros H5. unfold ir. clear -H5. Z.div_mod_to_equations. lia.
    + intros gm' Hg' Hn'. rewrite Hg in Hg'. inv Hg'. fold mg in Hn'. lia.
Qed.

Lemma band60_width : Z.of_nat (width band60) = 60.
Proof. reflexivity. Qed.

Lemma band60_gradient_magnitude : gradient_magnitude band60 = Ok band60_gm.
Proof. vm_compute. reflexivity. Qed.

Lemma band60_ignore_right : ignore_right (Z.of_nat (width band60)) = Ok 54.
Proof. vm_compute. reflexivity. Qed.

Lemma band60_peaks : peaks_of (modified_gradient band60_gm 54) = [9; 39]%nat.
Proof. vm_compute. reflexivity. Qed.

Lemma band60_edges : detect_edges band60 = Ok (9, 39).
Proof. vm_compute. reflexivity. Qed.

Lemma edge_pair_bounds_band60 :
  2 <= Z.of_nat (width band60) /\
  Z.of_nat (width band60) < float_width_limit /\
  ignore_right (Z.of_nat (width band60)) = Ok (9 * Z.of_nat (width band60) / 10) /\
  exists l r,
    detect_edges band60 = Ok (l, r) /\
    0 <= l /\ l < r /\ r <= 9 * Z.of_nat (width band60) / 10 /\
    (5 <= Z.of_nat (width band60) -> r <= 9 * Z.of_nat (width band60) / 10 - 1) /\
    (forall gm, gradient_magnitude band60 = Ok gm ->
       (2 <= length (peaks_of
                       (modified_gradient gm (9 * Z.of_nat (width band60) / 10))))%nat ->
       r <= 9 * Z.of_nat (width band60) / 10 - 1).
Proof.
  assert (H : 2 <= Z.of_nat (width band60))
    by (rewrite band60_width; lia).
  assert (Hl : Z.of_nat (width band60) < float_width_limit)
    by (rewrite band60_width; unfold float_width_limit; lia).
  split; [exact H|]. split; [exact Hl|].
  apply (edge_pair_bounds band60 H (or_introl Hl)).
Defined.

Lemma peak_edges_never_clamped_band60 :
  (forall c, 54 <= Z.of_nat c -> Np.get (modified_gradient band60_gm 54) c = F64.zero) /\
  exists p q,
    In p (peaks_of (modified_gradient band60_gm 54)) /\
    In q (peaks_of (modified_gradient band60_gm 54)) /\
    peak_edges (modified_gradient band60_gm 54)
      (peaks_of (modified_gradient band60_gm 54))
    = (Z.of_nat p, Z.of_nat q) /\
    Z.of_nat p < 54 /\ Z.of_nat q < 54 /\
    Z.min (Z.of_nat q) 54 = Z.of_nat q /\
    detect_edges band60 = Ok (Z.of_nat p, Z.of_nat q).
Proof.
  apply (@peak_edges_never_clamped band60 band60_gm 54
           band60_gradient_magnitude band60_ignore_right).
  rewrite band60_peaks. simpl. lia.
Defined.

Lemma peak_edges_far_apart_band60 :
  (exists p q, In p (peaks_of (modified_gradient band60_gm 54)) /\
               In q (peaks_of (modified_gradient band60_gm 54)) /\
               p <> q /\ 9 = Z.of_nat p /\ 39 = Z.of_nat q) /\
  (forall p q, In p (peaks_of (modified_gradient band60_gm 54)) ->
               In q (peaks_of (modified_gradient band60_gm 54)) ->
               (p < q)%nat -> (20 <= q - p)%nat) /\
  20 <= 39 - 9.
Proof.
  apply (@peak_edges_far_apart band60 band60_gm 54 9 39
           band60_gradient_magnitude band60_ignore_right).
  - rewrite band60_peaks. simpl. lia.
  - exact band60_edges.
Defined.

(* ================================================================== *)
(** ** Drawing and analysis do not interfere *)
(* ================================================================== *)

(** A drawing call leaves [img_array] alone. *)
Lemma draw_frame (paint : image -> image) (s : store) :
  exists s', draw paint s = Ok (tt, s') /\ img_array s' = img_array s.
Proof. eexists; split; reflexivity. Qed.

Lemma filter_below_seq (n : nat) :
  filter (fun i => (i <? n)%nat) (seq 0 (n + 1)) = seq 0 n.
Proof.
  rewrite seq_app, filter_app. simpl.
  destruct (Nat.ltb_spec n n); [lia|]. rewrite app_nil_r.
  apply forallb_filter_id, forallb_forall.
  intros i Hi. apply in_seq in Hi. apply Nat.ltb_lt. lia.
Qed.

Lemma sector_step_spec (env : platform) (bounds : list Z) (n : nat) (h : Z)
  (numFont : font) (colors : list (option pixel)) (i : nat) (s : store) :
  exists s',
    sector_step env bounds n h numFont colors i s
    = Ok (if (i <? n)%nat
          then colors ++ [sector_color (img_array s) bounds i]
          else colors, s') /\
    img_array s' = img_array s.
Proof.
  unfold sector_step, bind, draw, ret, get_array.
  destruct (i <? n)%nat, (0 <? i)%nat; simpl; eexists; split; reflexivity.
Qed.

(** The loop of lines 83-96 appends the colour of every sector, computed
    from [img_array], whatever has been drawn meanwhile. *)
Lemma sector_loop_spec (env : platform) (bounds : list Z) (n : nat) (h : Z)
  (numFont : font) (indices : list nat) :
  forall (colors : list (option pixel)) (s : store),
  exists s',
    foldM (sector_step env bounds n h numFont) indices colors s
    = Ok (colors ++ map (sector_color (img_array s) bounds)
                      (filter (fun i => (i <? n)%nat) indices), s') /\
    img_array s' = img_array s.
Proof.
  induction indices as [|i indices IH]; intros colors s.
  - exists s. simpl. rewrite app_nil_r. split; reflexivity.
  - cbn [foldM filter]. unfold bind at 1.
    destruct (sector_step_spec env bounds n h numFont colors i s)
      as (s1 & E1 & F1).
    rewrite E1.
    match goal with |- context [foldM _ _ ?c s1] =>
      destruct (IH c s1) as (s' & E & F) end.
    exists s'. rewrite E, F1. split; [|congruence].
    destruct (i <? n)%nat; cbn [map]; [rewrite <- app_assoc|]; reflexivity.
Qed.

(** [process_body] fails exactly when the analysis of [img_array] or the
    final save fails, and otherwise returns the analysis of [img_array];
    [img_array] itself is never written. *)
Lemma process_body_spec (env : platform) (output_path title : string)
  (n : nat) (numFont : font) (s : store) :
  match analyse (img_array s) n with
  | Raise e => process_body env output_path title n numFont s = Raise e
  | Ok r =>
      exists canvas,
        process_body env output_path title n numFont s
        = match image_save env output_path canvas with
          | Ok _ => Ok (r, {| img := canvas; img_array := img_array s |})
          | Raise e => Raise e
          end
  end.
Proof.
  unfold process_body, analyse.
  unfold bind, get_array, draw, lift, get_img, ret. cbv zeta.
  destruct (textbbox env (load_font env "arial.ttf" 40) title)
    as [[[b0 b1] b2] b3].
  cbn [img_array img].
  destruct (detect_edges (img_array s)) as [[l r]|e]; [|reflexivity].
  cbn [bind_outcome fst snd].
  destruct (sector_boundaries l r n) as [bounds|e]; [|reflexivity].
  cbn [bind_outcome].
  match goal with |- context [foldM _ _ _ ?st] =>
    destruct (sector_loop_spec env bounds n (Z.of_nat (height (img_array s)))
                numFont (seq 0 (n + 1)) [] st) as (s' & E & F) end.
  rewrite E. cbn [img_array app] in F |- *.
  rewrite filter_below_seq.
  exists (img s').
  destruct (image_save env output_path (img s')) as [[]|e]; [|reflexivity].
  destruct s' as [i' a']. cbn in F |- *. subst a'. reflexivity.
Qed.

(** What [process_spectrum] returns is the analysis of the decoded image. *)
Lemma process_spectrum_returns (env : platform)
  (input_path output_path title : string) (n : nat) (a : image) (r : result) :
  image_open env input_path = Ok a ->
  fst (process_spectrum env input_path output_path title n) = Some r ->
  analyse a n = Ok r.
Proof.
  intros Ho Hr. unfold process_spectrum in Hr. rewrite Ho in Hr.
  cbn [bind_outcome] in Hr.
  pose proof (process_body_spec env output_path title n
                (load_font env "arial.ttf" 12)
                {| img := a; img_array := a |}) as Hs.
  cbn [img_array] in Hs.
  destruct (analyse a n) as [r'|e].
  - destruct Hs as (canvas & Hs). rewrite Hs in Hr.
    destruct (image_save env output_path canvas); cbn in Hr; congruence.
  - rewrite Hs in Hr. discriminate.
Qed.

Lemma analyse_inv (a : image) (n : nat) (r : result) :
  analyse a n = Ok r ->
  detect_edges a = Ok (edges r) /\
  sector_boundaries (fst (edges r)) (snd (edges r)) n = Ok (boundaries r) /\
  sector_colors r = map (sector_color a (boundaries r)) (seq 0 n) /\
  spectrum_width r = snd (edges r) - fst (edges r).
Proof.
  unfold analyse. intros H.
  destruct (detect_edges a) as [e|]; [|discriminate]. cbn [bind_outcome] in H.
  destruct (sector_boundaries (fst e) (snd e) n) as [bounds|] eqn:Eb;
    [|discriminate].
  cbn [bind_outcome] in H. inv H. cbn. auto.
Qed.

(** C9.  Whatever is on the Pillow image and whatever the drawing calls
    paint on it, the edges, the boundaries and the sector colours returned
    are those of the pixel array copied before the first drawing call, and
    that array is unchanged at the end. *)
Theorem analysis_reads_snapshot (env : platform) (output_path title : string)
  (n : nat) (numFont : font) (canvas a : image) (r : result) (s' : store) :
  process_body env output_path title n numFont
    {| img := canvas; img_array := a |} = Ok (r, s') ->
  detect_edges a = Ok (edges r) /\
  sector_boundaries (fst (edges r)) (snd (edges r)) n = Ok (boundaries r) /\
  sector_colors r = map (sector_color a (boundaries r)) (seq 0 n) /\
  img_array s' = a.
Proof.
  intros H.
  pose proof (process_body_spec env output_path title n numFont
                {| img := canvas; img_array := a |}) as Hs.
  cbn [img_array] in Hs.
  destruct (analyse a n) as [r'|e] eqn:Ea.
  - destruct Hs as (c & Hs). rewrite Hs in H.
    destruct (image_save env output_path c); inv H.
    destruct (analyse_inv _ _ Ea) as (H1 & H2 & H3 & _). auto.
  - rewrite Hs in H. discriminate.
Qed.

Lemma band60_run_ok :
  process_body (flooding_platform band60) "out/band.png" "band" 4
    DefaultFont {| img := band60; img_array := band60 |}
  = Ok (fst band60_run, snd band60_run).
Proof. vm_compute. reflexivity. Qed.

Lemma analysis_reads_snapshot_band60 :
  img (snd band60_run) = flood black band60 /\
  detect_edges band60 = Ok (edges (fst band60_run)) /\
  sector_boundaries (fst (edges (fst band60_run))) (snd (edges (fst band60_run))) 4
  = Ok (boundaries (fst band60_run)) /\
  sector_colors (fst band60_run)
  = map (sector_color band60 (boundaries (fst band60_run))) (seq 0 4) /\
  img_array (snd band60_run) = band60.
Proof.
  split; [vm_compute; reflexivity|].
  apply (@analysis_reads_snapshot (flooding_platform band60) "out/band.png"
           "band" 4 DefaultFont band60 band60 (fst band60_run) (snd band60_run)
           band60_run_ok).
Defined.

(* ================================================================== *)
(** ** The folder driver *)
(* ================================================================== *)



Section Folder.
Variable env : platform.
Variables input_folder output_folder : string.
Variable num_sectors : nat.

Let step := process_file env input_folder output_folder num_sectors.
Let run := run_file env input_folder output_folder num_sectors.

Lemma process_file_results acc g :
  fst (step acc g)
  = match fst (run g) with
    | Some r => dict_set (fst acc) g r
    | None => fst acc
    end.
Proof.
  unfold step, run, process_file. destruct acc as [d out].
  destruct (run_file env input_folder output_folder num_sectors g) as [[r|] pr];
    cbn [fst]; auto.
  destruct (file_write env (color_file output_folder g)); reflexivity.
Qed.

Lemma process_file_log acc g :
  exists tail,
    snd (step acc g)
    = snd acc ++ [Print (newline ++ "Processing " ++ g ++ "...")%string]
        ++ snd (run g) ++ tail /\
    (forall r e, fst (run g) = Some r ->
                 file_write env (color_file output_folder g) = Raise e ->
                 tail = [Print ("Error processing " ++ g ++ ": " ++ e)%string]).
Proof.
  unfold step, run, process_file. destruct acc as [d out].
  destruct (run_file env input_folder output_folder num_sectors g) as [[r|] pr];
    cbn [fst snd].
  - destruct (file_write env (color_file output_folder g)) as [u|e];
      eexists; (split; [rewrite <- !app_assoc; reflexivity|]);
      intros r' e' _ He; congruence.
  - exists []. split; [now rewrite app_nil_r, <- app_assoc|].
    intros; discriminate.
Qed.


Lemma fold_log_grows (fs : list string) : forall acc e,
  In e (snd acc) -> In e (snd (fold_left step fs acc)).
Proof.
  induction fs as [|g fs IH]; intros acc e He; [exact He|].
  cbn [fold_left]. apply IH.
  destruct (process_file_log acc g) as (tail & -> & _).
  apply in_or_app. now left.
Qed.


End Folder.

Lemma full_disk_run_ok :
  process_folder full_disk_platform "in" "out" 4 = Ok full_disk_run.
Proof. vm_compute. reflexivity. Qed.




(* ================================================================== *)
(** ** Stage 3: classification and report *)
(* ================================================================== *)

Lemma scale_channel_checked : all_from 256 0 scale_is_exact = true.
Proof. vm_compute. reflexivity. Qed.

(** On a colour channel the float computation of lines 160 gives the exactly
    rounded value. *)
Lemma scale_channel_exact (c : Z) :
  channel_range c -> scale_channel c = Some (scaled_red c).
Proof.
  intros Hc. unfold channel_range in Hc.
  assert (H : scale_is_exact c = true).
  { apply (@all_from_spec _ _ _ scale_channel_checked c). simpl. lia. }
  unfold scale_is_exact in H.
  destruct (scale_channel c) as [v|]; [|discriminate].
  f_equal. now apply Z.eqb_eq.
Qed.

(** One of the three branches always assigns [sell]. *)
Lemma opinion_total (v : Z) : opinion v = Some (label v).
Proof.
  unfold opinion, label.
  destruct (200 <=? v); auto. destruct (Z.leb_spec 125 v); auto.
  destruct (Z.ltb_spec v 125); auto. lia.
Qed.

Lemma report_line_spec (i : nat) (p : pixel) :
  pixel_range p ->
  report_line i (Some p)
  = Some ("Sector " ++ str (i + 1) ++ ", " ++ label (scaled_red (red p)) ++ newline)%string.
Proof.
  intros (Hr & Hg & Hb). unfold report_line, hsv.
  rewrite !scale_channel_exact by assumption.
  now rewrite opinion_total.
Qed.

Lemma enumerate_from_length {A} (l : list A) : forall i,
  length (enumerate_from i l) = length l.
Proof. induction l as [|a l IH]; intros i; simpl; auto. Qed.

Lemma enumerate_from_map {A B} (f : A -> B) (l : list A) : forall i,
  enumerate_from i (map f l)
  = map (fun ia => (fst ia, f (snd ia))) (enumerate_from i l).
Proof. induction l as [|a l IH]; intros i; simpl; [|rewrite IH]; auto. Qed.

Lemma enumerate_from_range {A} (l : list A) (P : A -> Prop) : forall i,
  Forall P l -> Forall (fun ia => P (snd ia)) (enumerate_from i l).
Proof.
  induction l as [|a l IH]; intros i H; simpl; constructor; inv H; auto.
Qed.

(** *** The text of the report *)

Lemma str_app_assoc (a b c : string) : ((a ++ b) ++ c = a ++ b ++ c)%string.
Proof. induction a as [|x a IH]; cbn; [|rewrite IH]; reflexivity. Qed.

(** A line that a line feed ends is the first line of the text. *)
Lemma text_lines_line (l rest : string) :
  no_line_feed l = true ->
  text_lines (l ++ String "010" rest) = l :: text_lines rest.
Proof.
  induction l as [|c l IH]; intros H.
  - reflexivity.
  - cbn [no_line_feed] in H. apply andb_prop in H as [Hc Hl].
    cbn [append text_lines]. apply negb_true_iff in Hc. rewrite Hc.
    now rewrite (IH Hl).
Qed.

Lemma no_line_feed_app (s t : string) :
  no_line_feed (s ++ t) = no_line_feed s && no_line_feed t.
Proof.
  induction s as [|c s IH]; cbn [append no_line_feed]; [reflexivity|].
  now rewrite IH, andb_assoc.
Qed.

Lemma string_of_uint_no_line_feed (d : Decimal.uint) :
  no_line_feed (NilEmpty.string_of_uint d) = true.
Proof. induction d; cbn; auto. Qed.

Lemma label_no_line_feed (v : Z) : no_line_feed (label v) = true.
Proof. unfold label. destruct (200 <=? v), (125 <=? v); reflexivity. Qed.

(** Writing the lines one after the other, each with its line feed, and
    reading the lines back. *)
Lemma concat_lines_some (ls : list string) :
  concat_lines (map Some ls) = Some (fold_right append EmptyString ls).
Proof.
  induction ls as [|l ls IH]; cbn [map concat_lines fold_right];
    [|rewrite IH]; reflexivity.
Qed.

Lemma text_lines_written (ls : list string) :
  Forall (fun l => no_line_feed l = true) ls ->
  text_lines (fold_right append EmptyString
                (map (fun l => (l ++ String "010" EmptyString)%string) ls))
  = ls.
Proof.
  induction 1 as [|l ls Hl _ IH]; [reflexivity|].
  cbn [map fold_right]. rewrite str_app_assoc. cbn [append].
  now rewrite (@text_lines_line l _ Hl), IH.
Qed.

(** *** [str]: the decimal digits, most significant first *)

Lemma string_of_uint_revapp (d acc : Decimal.uint) :
  NilEmpty.string_of_uint (Decimal.revapp d acc)
  = (NilEmpty.string_of_uint (Decimal.rev d) ++ NilEmpty.string_of_uint acc)%string.
Proof.
  unfold Decimal.rev. revert acc.
  induction d; intros acc; cbn [Decimal.revapp];
    try reflexivity;
    rewrite IHd; symmetry; rewrite IHd;
    rewrite str_app_assoc; reflexivity.
Qed.

Lemma str_digit (n : nat) :
  (n < 10)%nat -> str n = String (ascii_of_nat (48 + n)) EmptyString.
Proof.
  intros H.
  do 10 (destruct n as [|n]; [reflexivity|]). lia.
Qed.

Lemma to_lu_digit (q r : nat) :
  q <> 0%nat -> (r < 10)%nat ->
  Decimal.rev (Unsigned.to_lu (10 * q + r))
  = Decimal.revapp (Unsigned.to_lu q) (Decimal.rev (Unsigned.to_lu r)).
Proof.
  intros Hq Hr.
  assert (E : Unsigned.to_lu (r + 10 * q)
              = Nat.iter r Decimal.Little.succ (Decimal.D0 (Unsigned.to_lu q))).
  { rewrite <- (Unsigned.to_lu_tenfold _ Hq). generalize (10 * q)%nat. intros m.
    clear Hr. induction r as [|r IH]; [reflexivity|].
    cbn [Nat.add Nat.iter Unsigned.to_lu]. rewrite IH. reflexivity. }
  rewrite Nat.add_comm, E.
  do 10 (destruct r as [|r]; [reflexivity|]). lia.
Qed.

Lemma str_tens (n : nat) :
  (10 <= n)%nat -> str n = (str (n / 10) ++ str (n mod 10))%string.
Proof.
  intros H. unfold str. rewrite !Unsigned.to_uint_alt.
  pose proof (Nat.div_mod_eq n 10) as E.
  assert (Hq : (n / 10 <> 0)%nat).
  { intros Hz. rewrite Hz in E. pose proof (Nat.mod_upper_bound n 10). lia. }
  rewrite E at 1.
  rewrite to_lu_digit by (auto; apply Nat.mod_upper_bound; lia).
  apply string_of_uint_revapp.
Qed.

(** C4.  The label is a total function of [round(red / 255 * 360)], by the
    thresholds 200 and 125, whatever green and blue are.  The report file
    is the line [Sector #, Opinion] followed by one line [Sector i, label]
    per sector, each ended by a line feed; [i] counts from 1 and is written
    in decimal digits. *)
Theorem classification_report (colors : list pixel) :
  Forall pixel_range colors ->
  (forall v, opinion v = Some (label v)) /\
  (forall v, label v = "Don't sell"%string <-> 200 <= v) /\
  (forall v, label v = "Squeeze room"%string <-> 125 <= v < 200) /\
  (forall v, label v = "Sell"%string <-> v < 125) /\
  (forall r g b, pixel_range (r, g, b) ->
                 hsv (r, g, b) = Some (scaled_red r, scaled_red g, scaled_red b)) /\
  report_lines (map Some colors)
  = Some ("Sector #, Opinion" ++ String "010" EmptyString)%string
    :: map (fun ic => Some ("Sector " ++ str (fst ic + 1) ++ ", "
                            ++ label (scaled_red (red (snd ic)))
                            ++ String "010" EmptyString)%string)
         (enumerate_from 0 colors) /\
  length (report_lines (map Some colors)) = S (length colors) /\
  (forall n, (n < 10)%nat -> str n = String (ascii_of_nat (48 + n)) EmptyString) /\
  (forall n, (10 <= n)%nat -> str n = (str (n / 10) ++ str (n mod 10))%string) /\
  exists text,
    report (map Some colors) = Some text /\
    text_lines text
    = "Sector #, Opinion"%string
      :: map (fun ic => ("Sector " ++ str (fst ic + 1) ++ ", "
                         ++ label (scaled_red (red (snd ic))))%string)
           (enumerate_from 0 colors).
Proof.
  intros Hc.
  assert (Hlines :
    report_lines (map Some colors)
    = Some ("Sector #, Opinion" ++ String "010" EmptyString)%string
      :: map (fun ic => Some ("Sector " ++ str (fst ic + 1) ++ ", "
                              ++ label (scaled_red (red (snd ic)))
                              ++ String "010" EmptyString)%string)
           (enumerate_from 0 colors)).
  { unfold report_lines. f_equal.
    rewrite enumerate_from_map, map_map.
    apply map_ext_in. intros [i p] Hin. cbn [fst snd].
    apply report_line_spec.
    pose proof (@enumerate_from_range _ colors pixel_range 0%nat Hc) as Hf.
    rewrite Forall_forall in Hf. apply (Hf _ Hin). }
  split; [exact opinion_total|].
  split; [|split; [|split; [|split; [|split; [|split; [|split; [|split]]]]]]].
  - intros v. unfold label. destruct (Z.leb_spec 200 v).
    + split; auto.
    + destruct (Z.leb_spec 125 v); split; intros H'; try discriminate; lia.
  - intros v. unfold label. destruct (Z.leb_spec 200 v).
    + split; intros H'; [discriminate|lia].
    + destruct (Z.leb_spec 125 v); split; intros H'; try discriminate;
        try lia; auto.
  - intros v. unfold label. destruct (Z.leb_spec 200 v).
    + split; intros H'; [discriminate|lia].
    + destruct (Z.leb_spec 125 v); split; intros H'; try discriminate;
        try lia; auto.
  - intros r g b (Hr & Hg & Hb). unfold hsv.
    cbn [red green blue fst snd] in *.
    now rewrite !scale_channel_exact by assumption.
  - exact Hlines.
  - unfold report_lines. cbn [length].
    now rewrite length_map, enumerate_from_length, length_map.
  - exact str_digit.
  - exact str_tens.
  - set (body := fun ic : nat * pixel =>
                   ("Sector " ++ str (fst ic + 1) ++ ", "
                    ++ label (scaled_red (red (snd ic))))%string).
    set (ls := "Sector #, Opinion"%string :: map body (enumerate_from 0 colors)).
    exists (fold_right append EmptyString
              (map (fun l => (l ++ String "010" EmptyString)%string) ls)).
    split.
    + unfold report. rewrite Hlines, <- concat_lines_some.
      f_equal. unfold ls. cbn [map]. f_equal.
      rewrite !map_map. apply map_ext. intros ic. unfold body.
      now rewrite !str_app_assoc.
    + apply text_lines_written. unfold ls. constructor; [reflexivity|].
      apply Forall_forall. intros l Hl. apply in_map_iff in Hl as (ic & <- & _).
      unfold body. rewrite !no_line_feed_app.
      unfold str. rewrite string_of_uint_no_line_feed, label_no_line_feed.
      reflexivity.
Qed.

Lemma classification_report_three :
  Forall pixel_range [(10, 0, 0); (100, 200, 200); (200, 0, 0)] /\
  report (map Some [(10, 0, 0); (100, 200, 200); (200, 0, 0)])
  = Some ("Sector #, Opinion" ++ String "010"
            ("Sector 1, Sell" ++ String "010"
               ("Sector 2, Squeeze room" ++ String "010"
                  ("Sector 3, Don't sell" ++ String "010" EmptyString))))%string /\
  exists text,
    report (map Some [(10, 0, 0); (100, 200, 200); (200, 0, 0)]) = Some text /\
    text_lines text
    = ["Sector #, Opinion"; "Sector 1, Sell"; "Sector 2, Squeeze room";
       "Sector 3, Don't sell"]%string.
Proof.
  assert (H : Forall pixel_range [(10, 0, 0); (100, 200, 200); (200, 0, 0)]).
  { repeat constructor; cbn; lia. }
  split; [exact H|]. split; [vm_compute; reflexivity|].
  destruct (classification_report H)
    as (_ & _ & _ & _ & _ & _ & _ & _ & _ & text & Ht & Hl).
  exists text. split; [exact Ht|exact Hl].
Defined.

(* ================================================================== *)
(** ** Pictures of a single colour *)
(* ================================================================== *)

Lemma null_no_rise (u v : float) : null u -> null v -> F64.ltb u v = false.
Proof. intros [-> | ->] [-> | ->]; reflexivity. Qed.

Lemma null_get (xs : list float) (i : nat) : Forall null xs -> null (Np.get xs i).
Proof.
  intros H. unfold Np.get.
  destruct (Nat.lt_ge_cases i (length xs)) as [Hi|Hi].
  - rewrite Forall_forall in H. apply H, nth_In, Hi.
  - rewrite nth_overflow by assumption. now left.
Qed.

Lemma null_zero_from (k : nat) (xs : list float) :
  Forall null xs -> Forall null (Np.zero_from k xs).
Proof.
  intros H. unfold Np.zero_from. apply Forall_app. split.
  - rewrite Forall_forall in *. intros v Hv. apply H.
    rewrite <- (firstn_skipn k xs). apply in_or_app. now left.
  - rewrite Forall_forall. intros v Hv. apply repeat_spec in Hv. now left.
Qed.

Lemma null_quotient (z d : float) :
  null z -> d = F64.of_Z 1 \/ d = F64.of_Z 2 -> null (F64.abs (F64.div z d)).
Proof. intros [-> | ->] [-> | ->]; vm_compute; auto. Qed.

Lemma map_const_seq {A} (v : A) (n : nat) : forall k,
  map (fun _ => v) (seq k n) = repeat v n.
Proof. induction n as [|n IH]; intros k; simpl; [|rewrite IH]; auto. Qed.

Lemma column_solid (w h : nat) (p : pixel) (c : nat) :
  (c < w)%nat -> column (solid_image w h p) c = repeat p h.
Proof.
  intros Hc. unfold column, solid_image.
  rewrite map_repeat. f_equal. now apply nth_repeat_lt.
Qed.

Lemma width_solid (w h : nat) (p : pixel) :
  (1 <= h)%nat -> width (solid_image w h p) = w.
Proof.
  intros Hh. unfold width, solid_image.
  destruct h; [lia|]. simpl. apply repeat_length.
Qed.

(** All columns of a solid picture have the same luminance. *)
Lemma grayscale_solid (w h : nat) (p : pixel) :
  (1 <= h)%nat -> (1 <= w)%nat ->
  exists u, grayscale (solid_image w h p) = Ok (repeat u w).
Proof.
  intros Hh Hw. unfold grayscale, avg_colors.
  rewrite width_solid by assumption.
  rewrite (map_ext_in _ (fun _ =>
             map (fun ch => Np.mean (map (fun q => F64.of_Z (ch q)) (repeat p h)))
               [red; green; blue])).
  2:{ intros c Hc. apply in_seq in Hc. rewrite column_solid by lia. reflexivity. }
  rewrite map_const_seq, map_repeat.
  destruct w as [|w]; [lia|]. cbn [repeat Np.amin Np.amax bind_outcome].
  match goal with |- exists u, Ok (map ?F (?v :: repeat ?v ?n)) = _ =>
    exists (F v); f_equal;
    change (v :: repeat v n) with (repeat v (S n)); apply map_repeat end.
Qed.

(** The edge strength of a solid picture is null everywhere. *)
Lemma gradient_magnitude_solid (w h : nat) (p : pixel) :
  (1 <= h)%nat -> (2 <= w)%nat ->
  exists gm, gradient_magnitude (solid_image w h p) = Ok gm /\ Forall null gm.
Proof.
  intros Hh Hw. unfold gradient_magnitude.
  destruct (grayscale_solid p Hh (w := w)) as (u & ->); [lia|].
  cbn [bind_outcome]. unfold Np.gradient. rewrite repeat_length.
  destruct (Nat.ltb_spec w 2); [lia|]. cbn [bind_outcome].
  eexists; split; [reflexivity|].
  unfold Np.absolute. rewrite map_map. apply Forall_forall.
  intros v Hv. apply in_map_iff in Hv. destruct Hv as (i & <- & Hi).
  apply in_seq in Hi. unfold Np.get.
  destruct (Nat.eqb_spec i 0); [|destruct (Nat.eqb_spec i (w - 1))];
    rewrite !nth_repeat_lt by lia;
    (apply null_quotient; [apply sub_self|auto]).
Qed.

(** No peak is found in a solid picture, which falls back to the default
    edges. *)
Lemma detect_edges_solid (w h : nat) (p : pixel) (ir : Z) :
  (1 <= h)%nat -> (2 <= w)%nat -> ignore_right (Z.of_nat w) = Ok ir ->
  (exists gm, gradient_magnitude (solid_image w h p) = Ok gm /\
              peaks_of (modified_gradient gm ir) = []) /\
  detect_edges (solid_image w h p) = Ok (default_edges (Z.of_nat w) ir).
Proof.
  intros Hh Hw Hi.
  destruct (gradient_magnitude_solid p Hh Hw) as (gm & Hg & Hn).
  assert (Hp : peaks_of (modified_gradient gm ir) = []).
  { unfold peaks_of. apply ScipyFacts.find_peaks_flat. intros a b.
    apply null_no_rise; apply null_get;
      unfold modified_gradient; now apply null_zero_from. }
  split; [exists gm; auto|].
  unfold detect_edges. rewrite width_solid by assumption.
  rewrite Hg. cbn [bind_outcome]. rewrite Hi. cbn [bind_outcome].
  rewrite Hp. reflexivity.
Qed.

(** *** Sector colours of a solid picture *)

Lemma skipn_repeat {A} (v : A) (n k : nat) : skipn k (repeat v n) = repeat v (n - k).
Proof.
  revert k; induction n as [|n IH]; intros [|k]; simpl; auto.
Qed.

Lemma firstn_repeat {A} (v : A) (n k : nat) :
  (k <= n)%nat -> firstn k (repeat v n) = repeat v k.
Proof.
  revert k; induction n as [|n IH]; intros [|k] H; simpl; auto; try lia.
  rewrite IH by lia. reflexivity.
Qed.

Lemma concat_repeat {A} (l : list A) (h : nat) :
  concat (repeat l h) = flat_map (fun _ => l) (seq 0 h).
Proof.
  rewrite flat_map_concat_map, map_const_seq. reflexivity.
Qed.

Lemma sector_solid (w h : nat) (p : pixel) (bounds : list Z) (i : nat) :
  0 <= nth i bounds 0 <= nth (i + 1) bounds 0 ->
  nth (i + 1) bounds 0 <= Z.of_nat w ->
  sector (solid_image w h p) bounds i
  = solid_image (Z.to_nat (nth (i + 1) bounds 0 - nth i bounds 0)) h p.
Proof.
  intros H1 H2. unfold sector, columns, solid_image.
  rewrite map_repeat. f_equal.
  rewrite skipn_repeat, firstn_repeat by lia. f_equal. lia.
Qed.

Lemma concat_solid (k h : nat) (p : pixel) :
  concat (solid_image k h p) = repeat p (h * k).
Proof.
  unfold solid_image. induction h as [|h IH]; simpl; auto.
  rewrite IH, repeat_app. reflexivity.
Qed.

Lemma mean_checked :
  all_from 256 0 (fun g => mean_is_exact 50 g && mean_is_exact 100 g) = true.
Proof. vm_compute. reflexivity. Qed.

Lemma mean_exact (n : nat) (g : Z) :
  n = 50%nat \/ n = 100%nat -> channel_range g ->
  Np.astype_int (Np.mean (repeat (F64.of_Z g) n)) = Some g.
Proof.
  intros Hn Hg. unfold channel_range in Hg.
  assert (H : mean_is_exact 50 g && mean_is_exact 100 g = true).
  { apply (@all_from_spec _ _ _ mean_checked g). simpl. lia. }
  apply andb_prop in H. destruct H as [H50 H100].
  assert (H : mean_is_exact n g = true) by (destruct Hn; subst; assumption).
  unfold mean_is_exact in H.
  destruct (Np.astype_int _) as [v|]; [|discriminate].
  f_equal. now apply Z.eqb_eq.
Qed.

Lemma avg_color_solid (k : nat) (g : Z) :
  k = 1%nat \/ k = 2%nat -> channel_range g ->
  avg_color (solid_image k 50 (g, g, g)) = Some (g, g, g).
Proof.
  intros Hk Hg. unfold avg_color, channel_mean.
  rewrite concat_solid, !map_repeat. cbn [red green blue fst snd].
  rewrite mean_exact; auto.
  destruct Hk; subst; auto.
Qed.

(** *** The 100 x 50 scenario *)

Lemma sector_boundaries_25_75 : sector_boundaries 25 75 32 = Ok bounds_25_75.
Proof. vm_compute. reflexivity. Qed.

Lemma ignore_right_100 : ignore_right 100 = Ok 90.
Proof. vm_compute. reflexivity. Qed.

Lemma sectors_25_75_narrow : forallb narrow_sector (seq 0 32) = true.
Proof. vm_compute. reflexivity. Qed.

Lemma sector_color_solid_100_50 (g : Z) (i : nat) :
  channel_range g -> In i (seq 0 32) ->
  sector_color (solid_image 100 50 (g, g, g)) bounds_25_75 i = Some (g, g, g).
Proof.
  intros Hg Hi.
  pose proof sectors_25_75_narrow as Hn. rewrite forallb_forall in Hn.
  specialize (Hn i Hi). unfold narrow_sector in Hn.
  apply andb_prop in Hn. destruct Hn as [Hn Hk].
  apply andb_prop in Hn. destruct Hn as [Hlo Hhi].
  apply Z.leb_le in Hlo, Hhi. apply orb_prop in Hk.
  unfold sector_color. rewrite sector_solid by (simpl Z.of_nat; destruct Hk as [Hk|Hk]; apply Z.eqb_eq in Hk; lia).
  apply avg_color_solid; auto.
  destruct Hk as [Hk|Hk]; apply Z.eqb_eq in Hk; rewrite Hk; auto.
Qed.

Lemma enumerate_from_repeat {A} (c : A) (n : nat) : forall k,
  enumerate_from k (repeat c n) = map (fun i => (i, c)) (seq k n).
Proof. induction n as [|n IH]; intros k; simpl; [|rewrite IH]; auto. Qed.

(** C8.  A 100 x 50 picture of one gray value has no peak; the edges fall
    back to 25 and 75; with 32 sectors there are 33 boundaries, every sector
    colour is the gray value, and every report line reads Sell when
    [round(gray / 255 * 360) < 125]. *)
Theorem solid_gray_scenario (g : Z) :
  channel_range g ->
  (exists gm, gradient_magnitude (solid_image 100 50 (g, g, g)) = Ok gm /\
              peaks_of (modified_gradient gm 90) = []) /\
  ignore_right 100 = Ok 90 /\
  detect_edges (solid_image 100 50 (g, g, g)) = Ok (25, 75) /\
  exists r,
    analyse (solid_image 100 50 (g, g, g)) 32 = Ok r /\
    edges r = (25, 75) /\
    length (boundaries r) = 33%nat /\
    length (sector_colors r) = 32%nat /\
    sector_colors r = repeat (Some (g, g, g)) 32 /\
    (scaled_red g < 125 ->
     report_lines (sector_colors r)
     = Some header
       :: map (fun i => Some ("Sector " ++ str (i + 1) ++ ", Sell" ++ newline)%string)
            (seq 0 32)).
Proof.
  intros Hg.
  destruct (@detect_edges_solid 100 50 (g, g, g) 90) as [Hp Hd];
    try lia; [exact ignore_right_100|].
  change (default_edges (Z.of_nat 100) 90) with (25, 75) in Hd.
  split; [exact Hp|]. split; [exact ignore_right_100|]. split; [exact Hd|].
  assert (Hc : map (sector_color (solid_image 100 50 (g, g, g)) bounds_25_75)
                 (seq 0 32) = repeat (Some (g, g, g)) 32).
  { rewrite (map_ext_in _ (fun _ => Some (g, g, g))).
    - apply map_const_seq.
    - intros i Hi. now apply sector_color_solid_100_50. }
  eexists. split.
  { unfold analyse. rewrite Hd. cbn [bind_outcome fst snd].
    rewrite sector_boundaries_25_75. cbn [bind_outcome]. reflexivity. }
  cbn [edges boundaries sector_colors]. rewrite Hc.
  split; [reflexivity|]. split; [reflexivity|]. split; [reflexivity|].
  split; [reflexivity|].
  intros Hs. unfold report_lines. f_equal.
  rewrite enumerate_from_repeat, map_map. apply map_ext. intros i.
  cbn [fst snd]. rewrite report_line_spec by (split; [|split]; exact Hg).
  cbn [red fst]. unfold label.
  destruct (Z.leb_spec 200 (scaled_red g)); [lia|].
  destruct (Z.leb_spec 125 (scaled_red g)); [lia|]. reflexivity.
Qed.

Lemma solid_gray_scenario_64 :
  channel_range 64 /\ scaled_red 64 < 125 /\
  (exists gm, gradient_magnitude (solid_image 100 50 (64, 64, 64)) = Ok gm /\
              peaks_of (modified_gradient gm 90) = []) /\
  ignore_right 100 = Ok 90 /\
  detect_edges (solid_image 100 50 (64, 64, 64)) = Ok (25, 75) /\
  exists r,
    analyse (solid_image 100 50 (64, 64, 64)) 32 = Ok r /\
    edges r = (25, 75) /\
    length (boundaries r) = 33%nat /\
    length (sector_colors r) = 32%nat /\
    sector_colors r = repeat (Some (64, 64, 64)) 32 /\
    (scaled_red 64 < 125 ->
     report_lines (sector_colors r)
     = Some header
       :: map (fun i => Some ("Sector " ++ str (i + 1) ++ ", Sell" ++ newline)%string)
            (seq 0 32)).
Proof.
  assert (H : channel_range 64) by (unfold channel_range; lia).
  split; [exact H|]. split; [vm_compute; reflexivity|].
  apply (solid_gray_scenario H).
Defined.

(* ================================================================== *)
(** ** Stage 2: sector boundaries and colours at their limits *)
(* ================================================================== *)

(** In exact arithmetic the boundaries start at the left edge, end at the
    right edge and never decrease. *)
Lemma spec_boundary_shape (l r : Z) (n : nat) :
  (1 <= n)%nat -> l <= r ->
  spec_boundary l r n 0 = l /\ spec_boundary l r n n = r /\
  forall i j, (i <= j)%nat -> spec_boundary l r n i <= spec_boundary l r n j.
Proof.
  intros Hn Hlr. unfold spec_boundary. repeat split.
  - rewrite Z.mul_0_l, Z.add_0_r. apply Z.div_mul. lia.
  - replace (l * Z.of_nat n + Z.of_nat n * (r - l)) with (r * Z.of_nat n) by lia.
    apply Z.div_mul. lia.
  - intros i j Hij. apply Z.div_le_mono; [lia|]. nia.
Qed.

(** With the default 32 sectors the float computation of lines 78-79 gives
    the exact boundaries; evaluated for the edge pairs
    [0 <= left_edge <= 20], [left_edge <= right_edge <= left_edge + 30]. *)
Lemma sector_boundaries_32_checked :
  all_from 21 0 (fun l => all_from 31 0 (fun d => boundaries_agree 32 l (l + d)))
  = true.
Proof. vm_compute. reflexivity. Qed.

(** C2 at two pictures.  Two columns cut into 49 sectors: the edges are
    (0, 1), the product [49 * (1 / 49)] falls short of 1 in binary64, and
    the last of the 50 boundaries is 0, not the right edge 1.  78 columns cut
    into 37 sectors: the edges are (19, 58) and the last boundary is 57. *)
Theorem last_boundary_misses_right_edge :
  (well_formed two_columns /\
   detect_edges two_columns = Ok (0, 1) /\
   F64.ltb (F64.mul (F64.of_Z 49) (F64.div (F64.of_Z 1) (F64.of_Z 49)))
     (F64.of_Z 1) = true /\
   sector_boundaries 0 1 49 = Ok (repeat 0 50) /\
   spec_boundary 0 1 49 49 = 1 /\
   exists r, analyse two_columns 49 = Ok r /\
             nth 49 (boundaries r) 0 = 0 /\ snd (edges r) = 1) /\
  (well_formed seventy_eight_columns /\
   detect_edges seventy_eight_columns = Ok (19, 58) /\
   spec_boundary 19 58 37 37 = 58 /\
   exists r, analyse seventy_eight_columns 37 = Ok r /\
             nth 37 (boundaries r) 0 = 57 /\ snd (edges r) = 58).
Proof.
  assert (Hd : detect_edges two_columns = Ok (0, 1)) by (vm_compute; reflexivity).
  assert (Hb : sector_boundaries 0 1 49 = Ok (repeat 0 50))
    by (vm_compute; reflexivity).
  split.
  - split.
    { unfold well_formed, two_columns, height, width; simpl.
      repeat split; try lia. repeat constructor. }
    split; [exact Hd|]. split; [vm_compute; reflexivity|].
    split; [exact Hb|]. split; [reflexivity|].
    eexists. split.
    + unfold analyse. rewrite Hd. cbn [bind_outcome fst snd]. rewrite Hb.
      cbn [bind_outcome]. reflexivity.
    + cbn [boundaries edges snd]. split; reflexivity.
  - assert (Hd' : detect_edges seventy_eight_columns = Ok (19, 58))
      by (vm_compute; reflexivity).
    split.
    { unfold well_formed, seventy_eight_columns, solid_image, height, width; simpl.
      repeat split; try lia. repeat constructor. }
    split; [exact Hd'|]. split; [reflexivity|].
    destruct (sector_boundaries 19 58 37) as [bs|] eqn:Eb;
      [|vm_compute in Eb; discriminate].
    eexists. split.
    + unfold analyse. rewrite Hd'. cbn [bind_outcome fst snd]. rewrite Eb.
      cbn [bind_outcome]. reflexivity.
    + cbn [boundaries edges snd]. split; [|reflexivity].
      vm_compute in Eb. inv Eb. reflexivity.
Qed.

(** C3 at a picture forty columns wide with the default 32 sectors: the
    edges are (10, 30), the first two boundaries are both 10, the first
    sector is an empty block, its mean is nan and its colour is not an
    integer triple. *)
Theorem empty_sector_has_no_color :
  well_formed forty_columns /\
  detect_edges forty_columns = Ok (10, 30) /\
  analyse forty_columns 32 = Ok forty_columns_result /\
  fst (process_spectrum (blank_platform forty_columns) "in/a.png" "out/a.png" "a" 32)
  = Some forty_columns_result /\
  nth 0 (boundaries forty_columns_result) 0 = 10 /\
  nth 1 (boundaries forty_columns_result) 0 = 10 /\
  concat (sector forty_columns (boundaries forty_columns_result) 0) = [] /\
  channel_mean red (sector forty_columns (boundaries forty_columns_result) 0)
  = F64.nan /\
  nth 0 (sector_colors forty_columns_result) (Some black) = None.
Proof.
  split.
  { unfold well_formed, forty_columns, solid_image, height, width; simpl.
    repeat split; try lia. repeat constructor. }
  repeat split; vm_compute; reflexivity.
Qed.

(* ================================================================== *)
(** * Further properties of the code *)
(* ================================================================== *)

(** ** Where peaks can be *)

Lemma plateau_end_le fuel x i i_max : forall i_ahead,
  (i_ahead <= i_max)%nat ->
  (Scipy.plateau_end fuel x i i_ahead i_max <= i_max)%nat.
Proof.
  induction fuel as [|fuel IH]; simpl; intros i_ahead H; auto.
  destruct (Nat.ltb_spec i_ahead i_max); simpl; auto.
  destruct (F64.eqb _ _); auto.
Qed.

Lemma local_maxima_from_below fuel x i_max : forall i,
  Forall (fun p => (p < i_max)%nat) (Scipy.local_maxima_from fuel x i i_max).
Proof.
  induction fuel as [|fuel IH]; cbn [Scipy.local_maxima_from]; intros i;
    [constructor|].
  destruct (Nat.ltb_spec i i_max); [|constructor].
  destruct (F64.ltb _ _); auto.
  pose proof (ScipyFacts.plateau_end_ge (i_max - i) x i (i + 1) i_max) as Hge.
  pose proof (@plateau_end_le (i_max - i) x i i_max (i + 1)%nat) as Hle.
  specialize (Hle ltac:(lia)).
  set (ia := Scipy.plateau_end (i_max - i) x i (i + 1) i_max) in *.
  clearbody ia.
  destruct (F64.ltb _ _); auto.
  constructor; auto.
  assert ((i + (ia - 1)) / 2 < ia)%nat
    by (apply Nat.Div0.div_lt_upper_bound; lia).
  lia.
Qed.

(** A peak is never the first nor the last sample. *)
Lemma find_peaks_inside x h d p :
  In p (Scipy.find_peaks x h d) -> (1 <= p /\ p + 2 <= length x)%nat.
Proof.
  unfold Scipy.find_peaks. intros H. do 2 apply In_compress in H.
  unfold Scipy.local_maxima_1d in H.
  pose proof (ScipyFacts.local_maxima_from_sorted (length x) x 1 (length x - 1))
    as [_ Hlo].
  pose proof (local_maxima_from_below (length x) x (length x - 1) 1) as Hhi.
  rewrite Forall_forall in Hlo, Hhi.
  specialize (Hlo _ H). specialize (Hhi _ H). cbv beta in *. lia.
Qed.

Lemma zero_from_length k xs : length (Np.zero_from k xs) = length xs.
Proof.
  unfold Np.zero_from. rewrite length_app, length_firstn, repeat_length. lia.
Qed.

(** X1.  The peaks found on line 59 come in increasing order; each lies
    strictly inside the picture and strictly below [ignore_right], has edge
    strength at least 0.1, and any two of them are at least 20 columns
    apart. *)
Theorem detected_peaks_contract (gm : list float) (ir : Z) :
  StronglySorted lt (peaks_of (modified_gradient gm ir)) /\
  (forall p, In p (peaks_of (modified_gradient gm ir)) ->
             (1 <= p /\ p + 2 <= length gm)%nat /\
             Z.of_nat p < ir /\
             F64.leb peak_height (Np.get (modified_gradient gm ir) p) = true) /\
  (forall p q, In p (peaks_of (modified_gradient gm ir)) ->
               In q (peaks_of (modified_gradient gm ir)) ->
               (p < q)%nat -> (20 <= q - p)%nat).
Proof.
  split; [apply peaks_sorted|]. split.
  - intros p Hp. split; [|split].
    + unfold peaks_of in Hp. apply find_peaks_inside in Hp.
      unfold modified_gradient in Hp. now rewrite zero_from_length in Hp.
    + now apply (peak_below_ignore_right gm).
    + unfold peaks_of in Hp.
      now apply (@ScipyFacts.find_peaks_height _ peak_height peak_distance p).
  - intros p q. apply peaks_far.
Qed.

(** X2.  A picture of 2 to 24 columns never has two peaks: whatever its
    pixels, the edges are the default ones. *)
Theorem narrow_image_default_edges (a : image) :
  2 <= Z.of_nat (width a) <= 24 ->
  detect_edges a
  = Ok (Z.of_nat (width a) / 4,
        Z.min (3 * Z.of_nat (width a) / 4) (9 * Z.of_nat (width a) / 10)).
Proof.
  intros Hw.
  destruct (gradient_magnitude_ok a) as (gm & Hg & _); [lia|].
  pose proof (@ignore_right_exact (Z.of_nat (width a))) as Hi.
  specialize (Hi ltac:(unfold max_width; lia)).
  rewrite (detect_edges_unfold _ Hg Hi). unfold select_edges.
  set (mg := modified_gradient gm (9 * Z.of_nat (width a) / 10)).
  destruct (Nat.leb_spec 2 (length (peaks_of mg))) as [Hn|Hn]; [|reflexivity].
  exfalso.
  destruct (peak_edges_spec mg (peaks_sorted _) Hn)
    as (p & q & Hp & Hq & Hpq & _).
  pose proof (peaks_far _ Hp Hq Hpq) as Hfar.
  pose proof (peak_below_ignore_right _ _ _ Hq) as Bq.
  unfold peaks_of in Hp. apply find_peaks_inside in Hp.
  assert (9 * Z.of_nat (width a) / 10 <= 21)
    by (clear -Hw; Z.div_mod_to_equations; lia).
  lia.
Qed.

Lemma narrow_image_default_edges_band24 :
  2 <= Z.of_nat (width band24) <= 24 /\
  detect_edges band24 = Ok (6, 18) /\
  detect_edges band24
  = Ok (Z.of_nat (width band24) / 4,
        Z.min (3 * Z.of_nat (width band24) / 4) (9 * Z.of_nat (width band24) / 10)).
Proof.
  assert (H : 2 <= Z.of_nat (width band24) <= 24) by (vm_compute; split; discriminate).
  split; [exact H|]. split; [vm_compute; reflexivity|].
  apply (narrow_image_default_edges band24 H).
Defined.

(** X3.  A picture of a single colour, of any height and of 2 to
    [max_width] columns, has no peak and gets the default edges. *)
Theorem solid_image_default_edges (w h : nat) (p : pixel) :
  (1 <= h)%nat -> 2 <= Z.of_nat w <= max_width ->
  (exists gm, gradient_magnitude (solid_image w h p) = Ok gm /\
              peaks_of (modified_gradient gm (9 * Z.of_nat w / 10)) = []) /\
  detect_edges (solid_image w h p)
  = Ok (Z.of_nat w / 4, Z.min (3 * Z.of_nat w / 4) (9 * Z.of_nat w / 10)).
Proof.
  intros Hh Hw.
  apply (@detect_edges_solid w h p (9 * Z.of_nat w / 10)); auto; try lia.
  apply ignore_right_exact. lia.
Qed.

Lemma solid_image_default_edges_forty :
  detect_edges forty_columns = Ok (40 / 4, Z.min (3 * 40 / 4) (9 * 40 / 10)).
Proof.
  apply (@solid_image_default_edges 40 2 (90, 90, 90)).
  - lia.
  - unfold max_width. simpl. lia.
Defined.

(** ** The shape of the boundaries and of a result *)

Lemma sequence_map_spec {A B} (f : A -> outcome B) (l : list A) : forall bs,
  sequence (map f l) = Ok bs ->
  length bs = length l /\
  forall i d e, (i < length l)%nat -> f (nth i l d) = Ok (nth i bs e).
Proof.
  induction l as [|a l IH]; intros bs H.
  - inv H. split; [reflexivity|]. simpl; intros; lia.
  - cbn [map sequence] in H. destruct (f a) as [b|] eqn:Ea; [|discriminate].
    cbn [bind_outcome] in H.
    destruct (sequence (map f l)) as [s|] eqn:Es; [|discriminate].
    cbn [bind_outcome] in H. inv H.
    destruct (IH s eq_refl) as [Hl Hn]. split; [simpl; congruence|].
    intros [|i] d e Hi; simpl; auto. apply Hn. simpl in Hi. lia.
Qed.

(** [float(l)] is exact below 2^53: a zero for 0, else a finite value that
    [int] maps back to [l]. *)
Lemma of_Z_exact (l : Z) :
  0 <= l < 2 ^ 53 ->
  (l = 0 /\ F64.of_Z l = S754_zero false) \/
  (exists m e, F64.of_Z l = S754_finite false m e /\
               F64.trunc (S754_finite false m e) = Some l).
Proof.
  intros Hl. destruct l as [|p|p]; [left; split; reflexivity| |lia].
  right. pose proof (F64Facts.digits2_pos_bounds p) as Hd.
  set (d := Zpos (digits2_pos p)) in *.
  assert (Hr : 1 <= d <= 53).
  { assert (0 < d) by reflexivity. split; [lia|].
    destruct (Z.le_gt_cases d 53); auto.
    assert (2 ^ 53 <= 2 ^ (d - 1)) by (apply Z.pow_le_mono_r; lia). lia. }
  clearbody d.
  assert (Hp : 0 < 2 ^ (53 - d)) by (apply Z.pow_pos_nonneg; lia).
  exists (Z.to_pos (Zpos p * 2 ^ (53 - d))), (d - 53).
  split; [now apply F64Facts.of_Z_finite|].
  unfold F64.trunc. rewrite Z2Pos.id by lia. f_equal.
  destruct (Z.leb_spec 0 (d - 53)).
  - replace d with 53 by lia. cbn [Z.sub Z.pos_sub Z.opp]. rewrite !Z.pow_0_r. lia.
  - replace (- (d - 53)) with (53 - d) by lia. now rewrite Z.div_mul by lia.
Qed.

(** [int(left_edge + 0*sector_width)] is the left edge whenever it is a
    number at all. *)
Lemma boundary_zero (l : Z) (sw : float) (v : Z) :
  0 <= l < 2 ^ 53 -> boundary l sw 0 = Ok v -> v = l.
Proof.
  intros Hl H. unfold boundary, py_int in H.
  change (F64.of_Z (Z.of_nat 0)) with (S754_zero false) in H.
  destruct (of_Z_exact Hl) as [(-> & E)|(m & e & E & Ht)]; rewrite E in H.
  - destruct sw as [s'|s'| |s' m' e']; try destruct s';
      cbn in H; congruence.
  - destruct sw as [s'|s'| |s' m' e'];
      try (cbn in H; discriminate).
    + change (F64.add (S754_finite false m e)
                (F64.mul (S754_zero false) (S754_zero s')))
        with (S754_finite false m e) in H.
      rewrite Ht in H. congruence.
    + change (F64.add (S754_finite false m e)
                (F64.mul (S754_zero false) (S754_finite s' m' e')))
        with (S754_finite false m e) in H.
      rewrite Ht in H. congruence.
Qed.

(** On a natural number, lines 78-79 for any int are [sector_boundaries]. *)
Lemma py_range_succ (n : nat) : py_range (Z.of_nat n + 1) = seq 0 (n + 1).
Proof. unfold py_range. f_equal. lia. Qed.

Lemma sector_boundaries_int_nat (l r : Z) (n : nat) :
  sector_boundaries_int l r (Z.of_nat n) = sector_boundaries l r n.
Proof. unfold sector_boundaries_int, sector_boundaries. now rewrite py_range_succ. Qed.

(** X4.  Whenever lines 78-79 produce boundaries, for a left edge of 0 to
    2^53 - 1 and any integer [num_sectors]: [num_sectors] is not 0; a
    negative one gives no boundary at all; a positive one gives
    [num_sectors + 1] boundaries, the first of which is the left edge. *)
Theorem boundaries_start_at_left_edge (l r num_sectors : Z) (bs : list Z) :
  0 <= l < 2 ^ 53 ->
  sector_boundaries_int l r num_sectors = Ok bs ->
  num_sectors <> 0 /\
  length bs = Z.to_nat (num_sectors + 1) /\
  (num_sectors < 0 -> bs = []) /\
  (0 < num_sectors -> nth 0 bs 0 = l).
Proof.
  intros Hl H. unfold sector_boundaries_int, true_div in H.
  destruct (Z.eqb_spec num_sectors 0) as [|Hn]; [discriminate|].
  cbn [bind_outcome] in H.
  destruct (sequence_map_spec _ _ H) as [Hlen Hnth].
  unfold py_range in Hlen, Hnth. rewrite length_seq in Hlen, Hnth.
  split; [exact Hn|]. split; [exact Hlen|]. split.
  - intros Hneg. apply length_zero_iff_nil. lia.
  - intros Hpos. specialize (Hnth 0%nat 0%nat 0 ltac:(lia)).
    rewrite seq_nth in Hnth by lia.
    cbn [Nat.add] in Hnth. now apply (@boundary_zero l _ _ Hl) in Hnth.
Qed.

Lemma sector_boundaries_int_25_75 : sector_boundaries_int 25 75 32 = Ok bounds_25_75.
Proof. vm_compute. reflexivity. Qed.

Lemma boundaries_start_at_left_edge_25_75 :
  32 <> 0 /\
  length bounds_25_75 = Z.to_nat (32 + 1) /\
  (32 < 0 -> bounds_25_75 = []) /\
  (0 < 32 -> nth 0 bounds_25_75 0 = 25).
Proof.
  apply (@boundaries_start_at_left_edge 25 75 32 bounds_25_75).
  - change (2 ^ 53) with 9007199254740992. lia.
  - exact sector_boundaries_int_25_75.
Defined.

(** A negative [num_sectors] is no error. *)
Lemma negative_sectors_no_boundaries : sector_boundaries_int 25 75 (-1) = Ok [].
Proof. vm_compute. reflexivity. Qed.

(** The edge detector needs two columns. *)
Lemma detect_edges_width (a : image) (e : Z * Z) :
  detect_edges a = Ok e -> (2 <= width a)%nat.
Proof.
  intros Hd. destruct (Nat.lt_ge_cases (width a) 2) as [Hlt|]; auto. exfalso.
  unfold detect_edges, gradient_magnitude, grayscale in Hd.
  pose proof (avg_colors_length a) as Hl.
  destruct (avg_colors a) as [|c cs]; [discriminate|].
  cbn [map Np.amin Np.amax bind_outcome] in Hd.
  unfold Np.gradient in Hd. cbn [length] in Hd, Hl.
  rewrite !length_map in Hd.
  destruct (Nat.ltb_spec (S (length cs)) 2); [discriminate|lia].
Qed.

Lemma analyse_shape (a : image) (n : nat) (r : result) :
  analyse a n = Ok r ->
  (2 <= width a)%nat /\ (1 <= n)%nat /\
  length (boundaries r) = (n + 1)%nat /\ length (sector_colors r) = n /\
  spectrum_width r = snd (edges r) - fst (edges r).
Proof.
  intros H. destruct (analyse_inv _ _ H) as (Hd & Hb & Hc & Hw).
  split; [exact (detect_edges_width _ Hd)|].
  unfold sector_boundaries, true_div in Hb.
  destruct (Z.eqb_spec (Z.of_nat n) 0) as [|Hn]; [discriminate|].
  cbn [bind_outcome] in Hb.
  destruct (sequence_map_spec _ _ Hb) as [Hlen _].
  rewrite length_seq in Hlen.
  rewrite Hc, length_map, length_seq. repeat split; auto. lia.
Qed.

(** The sectors of [range(num_sectors+1)] that the loop averages. *)
Lemma filter_below_py_range (num_sectors : Z) :
  filter (fun i => (i <? Z.to_nat num_sectors)%nat) (py_range (num_sectors + 1))
  = seq 0 (Z.to_nat num_sectors).
Proof.
  unfold py_range. destruct (Z.le_gt_cases 0 num_sectors) as [Hp|Hn].
  - replace (Z.to_nat (num_sectors + 1)) with (Z.to_nat num_sectors + 1)%nat by lia.
    apply filter_below_seq.
  - replace (Z.to_nat (num_sectors + 1)) with 0%nat by lia.
    replace (Z.to_nat num_sectors) with 0%nat by lia. reflexivity.
Qed.

(** [process_body_int] fails exactly when the edge detection, the boundaries
    or the final save fail, and otherwise returns what lines 47-92 compute
    from [img_array]. *)
Lemma process_body_int_spec (env : platform) (output_path title : string)
  (num_sectors : Z) (numFont : font) (s : store) :
  match detect_edges (img_array s) with
  | Raise e => process_body_int env output_path title num_sectors numFont s = Raise e
  | Ok (l, r) =>
      match sector_boundaries_int l r num_sectors with
      | Raise e =>
          process_body_int env output_path title num_sectors numFont s = Raise e
      | Ok bounds =>
          exists canvas,
            process_body_int env output_path title num_sectors numFont s
            = match image_save env output_path canvas with
              | Ok _ =>
                  Ok ({| edges := (l, r);
                         boundaries := bounds;
                         sector_colors :=
                           map (sector_color (img_array s) bounds)
                             (seq 0 (Z.to_nat num_sectors));
                         spectrum_width := r - l |},
                      {| img := canvas; img_array := img_array s |})
              | Raise e => Raise e
              end
      end
  end.
Proof.
  unfold process_body_int.
  unfold bind, get_array, draw, lift, get_img, ret. cbv zeta.
  destruct (textbbox env (load_font env "arial.ttf" 40) title)
    as [[[b0 b1] b2] b3].
  cbn [img_array img].
  destruct (detect_edges (img_array s)) as [[l r]|e]; [|reflexivity].
  destruct (sector_boundaries_int l r num_sectors) as [bounds|e]; [|reflexivity].
  match goal with |- context [foldM _ _ _ ?st] =>
    destruct (sector_loop_spec env bounds (Z.to_nat num_sectors)
                (Z.of_nat (height (img_array s)))
                numFont (py_range (num_sectors + 1)) [] st) as (s' & E & F) end.
  rewrite E. cbn [img_array app] in F |- *.
  rewrite filter_below_py_range.
  exists (img s').
  destruct (image_save env output_path (img s')) as [[]|e]; [|reflexivity].
  destruct s' as [i' a']. cbn in F |- *. subst a'. reflexivity.
Qed.

(** On a natural number [process_spectrum_int] is [process_spectrum]. *)
Lemma process_spectrum_int_nat (env : platform)
  (input_path output_path title : string) (n : nat) :
  process_spectrum_int env input_path output_path title (Z.of_nat n)
  = process_spectrum env input_path output_path title n.
Proof.
  unfold process_spectrum_int, process_spectrum.
  destruct (image_open env input_path) as [a|e]; [|reflexivity].
  cbn [bind_outcome].
  unfold process_body_int, process_body.
  unfold bind, get_array, draw, lift, get_img, ret. cbv zeta.
  destruct (textbbox env (load_font env "arial.ttf" 40) title)
    as [[[b0 b1] b2] b3].
  cbn [img_array img].
  destruct (detect_edges a) as [[l r]|e]; [|reflexivity].
  now rewrite sector_boundaries_int_nat, py_range_succ, Nat2Z.id.
Qed.

(** X5.  When [process_spectrum] returns a result, for any integer
    [num_sectors]: the picture was decoded and has at least two columns,
    [num_sectors] is not 0, the result holds [num_sectors + 1] boundaries
    and [num_sectors] colours (none of either when [num_sectors] is
    negative), its width is right edge minus left edge, and the run saved
    one picture at [output_path] and printed one line. *)
Theorem returned_result_shape (env : platform)
  (input_path output_path title : string) (num_sectors : Z) (r : result) :
  fst (process_spectrum_int env input_path output_path title num_sectors) = Some r ->
  (exists a, image_open env input_path = Ok a /\ (2 <= width a)%nat) /\
  num_sectors <> 0 /\
  length (boundaries r) = Z.to_nat (num_sectors + 1) /\
  length (sector_colors r) = Z.to_nat num_sectors /\
  spectrum_width r = snd (edges r) - fst (edges r) /\
  exists canvas,
    snd (process_spectrum_int env input_path output_path title num_sectors)
    = [SaveImage output_path canvas;
       Print ("Processed image saved to " ++ output_path)%string].
Proof.
  intros H. unfold process_spectrum_int in H |- *.
  destruct (image_open env input_path) as [a|e] eqn:Ho; [|discriminate].
  cbn [bind_outcome] in H |- *.
  pose proof (process_body_int_spec env output_path title num_sectors
                (load_font env "arial.ttf" 12)
                {| img := a; img_array := a |}) as Hs.
  cbn [img_array] in Hs.
  destruct (detect_edges a) as [[l rr]|e] eqn:Hd.
  2:{ rewrite Hs in H. discriminate. }
  destruct (sector_boundaries_int l rr num_sectors) as [bounds|e] eqn:Hb.
  2:{ rewrite Hs in H. discriminate. }
  destruct Hs as (canvas & Hs). rewrite Hs in H |- *.
  destruct (image_save env output_path canvas) as [[]|e]; [|discriminate].
  cbn [fst snd] in H |- *. inv H. cbn [boundaries sector_colors edges
                                       spectrum_width fst snd img].
  split; [exists a; split; [reflexivity|exact (detect_edges_width _ Hd)]|].
  assert (Hn : num_sectors <> 0).
  { unfold sector_boundaries_int, true_div in Hb.
    destruct (Z.eqb_spec num_sectors 0); [discriminate|assumption]. }
  unfold sector_boundaries_int, true_div in Hb.
  destruct (Z.eqb_spec num_sectors 0) as [|_]; [contradiction|].
  cbn [bind_outcome] in Hb.
  destruct (sequence_map_spec _ _ Hb) as [Hlen _].
  unfold py_range in Hlen. rewrite length_seq in Hlen.
  split; [exact Hn|]. split; [exact Hlen|].
  split; [now rewrite length_map, length_seq|].
  split; [reflexivity|]. exists canvas. reflexivity.
Qed.

Lemma band60_int_run :
  fst (process_spectrum_int (blank_platform band60) "a.png" "out/a.png" "a" 4)
  = Some (fst band60_run).
Proof. vm_compute. reflexivity. Qed.

Lemma returned_result_shape_band60 :
  (exists a, image_open (blank_platform band60) "a.png" = Ok a /\ (2 <= width a)%nat) /\
  4 <> 0 /\
  length (boundaries (fst band60_run)) = Z.to_nat (4 + 1) /\
  length (sector_colors (fst band60_run)) = Z.to_nat 4 /\
  spectrum_width (fst band60_run)
  = snd (edges (fst band60_run)) - fst (edges (fst band60_run)) /\
  exists canvas,
    snd (process_spectrum_int (blank_platform band60) "a.png" "out/a.png" "a" 4)
    = [SaveImage "out/a.png" canvas;
       Print ("Processed image saved to " ++ "out/a.png")%string].
Proof.
  apply (@returned_result_shape (blank_platform band60) "a.png" "out/a.png" "a" 4
           (fst band60_run) band60_int_run).
Defined.

(** With [num_sectors = -1] a run succeeds and returns a result without
    boundaries and without colours. *)
Lemma negative_sectors_empty_result :
  exists r,
    fst (process_spectrum_int (blank_platform band60) "a.png" "out/a.png" "a" (-1))
    = Some r /\
    edges r = (9, 39) /\ boundaries r = [] /\ sector_colors r = [].
Proof. eexists. split; [vm_compute; reflexivity|]. repeat split. Qed.

(** X6.  A file that cannot be decoded, a picture of a single column and a
    sector count of zero all end in the [except] of line 111: the function
    returns [None], prints one error line and saves nothing. *)
Theorem degenerate_input_returns_none (env : platform)
  (input_path output_path title : string) (n : nat) :
  (exists e, image_open env input_path = Raise e) \/
  (exists a, image_open env input_path = Ok a /\ (width a = 1%nat \/ n = 0%nat)) ->
  exists e,
    process_spectrum env input_path output_path title n
    = (None, [Print ("Error processing image: " ++ e)%string]).
Proof.
  intros [(e & Ho)|(a & Ho & Hd)]; unfold process_spectrum; rewrite Ho;
    cbn [bind_outcome].
  - exists e. reflexivity.
  - pose proof (process_body_spec env output_path title n
                  (load_font env "arial.ttf" 12)
                  {| img := a; img_array := a |}) as Hs.
    cbn [img_array] in Hs.
    destruct (analyse a n) as [r|e] eqn:Ea.
    + exfalso. destruct (analyse_shape _ _ Ea) as (Hw & Hn & _). lia.
    + rewrite Hs. exists e. reflexivity.
Qed.

Lemma degenerate_input_returns_none_one_pixel :
  exists e,
    process_spectrum (blank_platform one_pixel) "dot.png" "out/dot.png" "dot" 32
    = (None, [Print ("Error processing image: " ++ e)%string]).
Proof.
  apply (@degenerate_input_returns_none (blank_platform one_pixel)
           "dot.png" "out/dot.png" "dot" 32).
  right. exists one_pixel. split; [reflexivity|]. left. reflexivity.
Defined.

(** ** File names *)

Section Strings.
Local Open Scope string_scope.

Lemma str_length_app (a b : string) :
  String.length (a ++ b) = (String.length a + String.length b)%nat.
Proof. induction a as [|c a IH]; simpl; auto. Qed.

Lemma str_app_inv_head (p a b : string) : p ++ a = p ++ b -> a = b.
Proof. induction p as [|c p IH]; simpl; intros H; auto. inv H. auto. Qed.

Lemma substring_skip (a b : string) (m k : nat) :
  substring (String.length a + m) k (a ++ b) = substring m k b.
Proof. induction a as [|c a IH]; simpl; auto. Qed.

Lemma substring_all (s : string) : substring 0 (String.length s) s = s.
Proof. induction s as [|c s IH]; simpl; [|rewrite IH]; auto. Qed.

Lemma substring_prefix (a b : string) : substring 0 (String.length a) (a ++ b) = a.
Proof.
  induction a as [|c a IH]; simpl; [|rewrite IH]; auto. destruct b; auto.
Qed.

Lemma substring_split (s : string) : forall m,
  s = substring 0 m s ++ substring m (String.length s - m) s.
Proof.
  induction s as [|c s IH]; intros [|m]; simpl; auto.
  - now rewrite substring_all.
  - now rewrite <- IH.
Qed.

Lemma lower_app (a b : string) : lower (a ++ b) = lower a ++ lower b.
Proof. induction a as [|c a IH]; simpl; [|rewrite IH]; auto. Qed.

Lemma lower_length (s : string) : String.length (lower s) = String.length s.
Proof. induction s as [|c s IH]; simpl; auto. Qed.

Lemma lower_substring (s : string) : forall n m,
  lower (substring n m s) = substring n m (lower s).
Proof.
  induction s as [|c s IH]; intros [|n] [|m]; simpl; auto.
  now rewrite IH.
Qed.

Lemma endswith_app (x suf : string) : endswith (x ++ suf) suf = true.
Proof.
  unfold endswith. rewrite str_length_app.
  apply andb_true_intro. split; [apply Nat.leb_le; lia|].
  replace (String.length x + String.length suf - String.length suf)%nat
    with (String.length x + 0)%nat by lia.
  rewrite substring_skip, substring_all. apply String.eqb_refl.
Qed.

Lemma endswith_tail (s suf : string) :
  endswith s suf = true ->
  (String.length suf <= String.length s)%nat /\
  substring (String.length s - String.length suf) (String.length suf) s = suf.
Proof.
  unfold endswith. intros H. apply andb_prop in H. destruct H as [Hk He].
  apply Nat.leb_le in Hk. apply String.eqb_eq in He. auto.
Qed.

(** Only the tail of a name decides whether it ends with a suffix. *)
Lemma endswith_long_tail (x u suf : string) :
  (String.length suf <= String.length u)%nat ->
  endswith (x ++ u) suf = endswith u suf.
Proof.
  intros H. unfold endswith. rewrite str_length_app.
  replace (String.length x + String.length u - String.length suf)%nat
    with (String.length x + (String.length u - String.length suf))%nat by lia.
  rewrite substring_skip.
  destruct (Nat.leb_spec (String.length suf) (String.length u)); [|lia].
  destruct (Nat.leb_spec (String.length suf) (String.length x + String.length u));
    [reflexivity|lia].
Qed.

(** X7.  A name passes the filter of lines 130-131 exactly when it ends,
    in whatever letter case, with one of the five extensions. *)
Theorem image_filter_spec (f : string) :
  is_image_file f = true <->
  exists stem ext, f = stem ++ ext /\ In (lower ext) image_extensions.
Proof.
  unfold is_image_file. fold image_extensions. rewrite existsb_exists. split.
  - intros (e & He & Hend). apply endswith_tail in Hend.
    destruct Hend as [Hk Hs]. rewrite lower_length in Hk, Hs.
    exists (substring 0 (String.length f - String.length e) f),
           (substring (String.length f - String.length e) (String.length e) f).
    split.
    + rewrite (substring_split f (String.length f - String.length e)) at 1.
      do 2 f_equal. lia.
    + now rewrite lower_substring, Hs.
  - intros (stem & ext & -> & Hin). exists (lower ext). split; auto.
    rewrite lower_app. apply endswith_app.
Qed.

Lemma path_join_prefix (folder : string) :
  exists pre, forall name, path_join folder name = pre ++ name.
Proof.
  unfold path_join. destruct (_ || _).
  - exists folder. reflexivity.
  - exists (folder ++ "/"). intros name. now rewrite str_app_assoc.
Qed.

(** X8.  The report of a file is never written over an annotated picture:
    its path differs from the output path of every name that passes the
    filter, and the report name itself does not pass the filter. *)
Theorem report_path_is_no_picture (output_folder f g : string) :
  is_image_file g = true ->
  is_image_file (splitext_root f ++ "_processed.csv") = false /\
  color_file output_folder f <> path_join output_folder g.
Proof.
  intros Hg.
  assert (Hcsv : is_image_file (splitext_root f ++ "_processed.csv") = false).
  { unfold is_image_file. rewrite lower_app.
    change (lower "_processed.csv") with "_processed.csv".
    cbn [existsb]. rewrite !endswith_long_tail by (simpl; lia). reflexivity. }
  split; [exact Hcsv|].
  unfold color_file. destruct (path_join_prefix output_folder) as (pre & Hp).
  rewrite !Hp. intros E. apply str_app_inv_head in E.
  rewrite <- E, Hcsv in Hg. discriminate.
Qed.

Lemma report_path_is_no_picture_band :
  is_image_file "band.PNG" = true /\
  is_image_file (splitext_root "band.PNG" ++ "_processed.csv") = false /\
  color_file "out" "band.PNG" <> path_join "out" "band.PNG".
Proof.
  assert (H : is_image_file "band.PNG" = true) by reflexivity.
  split; [exact H|].
  apply (@report_path_is_no_picture "out" "band.PNG" "band.PNG" H).
Defined.

Lemma last_dot_no_dot (e : string) : forall i found,
  no_dot e = true -> last_dot e i found = found.
Proof.
  induction e as [|c e IH]; simpl; intros i found H; auto.
  apply andb_prop in H. destruct H as [Hc He].
  destruct (Ascii.eqb c "."); [discriminate|]. now apply IH.
Qed.

Lemma last_dot_app (s e : string) : forall i found,
  no_dot e = true ->
  last_dot (s ++ "." ++ e) i found = Some (i + String.length s)%nat.
Proof.
  induction s as [|c s IH]; intros i found He.
  - cbn [append last_dot]. rewrite Ascii.eqb_refl.
    rewrite last_dot_no_dot by assumption. cbn. f_equal. lia.
  - cbn [append last_dot String.length]. rewrite IH by assumption. f_equal. lia.
Qed.

(** X9.  For a name [stem.ext] whose extension has no dot and whose stem
    is not made of dots only, the title of line 142 is the stem; so two
    files that differ in their extension only get the same report path. *)
Theorem same_stem_same_report (output_folder stem e1 e2 : string) :
  all_dots stem = false -> no_dot e1 = true -> no_dot e2 = true ->
  splitext_root (stem ++ "." ++ e1) = stem /\
  color_file output_folder (stem ++ "." ++ e1)
  = color_file output_folder (stem ++ "." ++ e2).
Proof.
  intros Hs H1 H2.
  assert (R : forall e, no_dot e = true -> splitext_root (stem ++ "." ++ e) = stem).
  { intros e He. unfold splitext_root. rewrite last_dot_app by assumption.
    cbn [Nat.add]. rewrite substring_prefix, Hs. reflexivity. }
  split; [now apply R|]. unfold color_file. now rewrite !R.
Qed.

Lemma same_stem_same_report_chart :
  splitext_root ("chart" ++ "." ++ "png") = "chart" /\
  color_file "out" ("chart" ++ "." ++ "png")
  = color_file "out" ("chart" ++ "." ++ "jpg").
Proof.
  apply (@same_stem_same_report "out" "chart" "png" "jpg");
    reflexivity.
Defined.

End Strings.

(** ** The folder run as a whole *)

Lemma filter_none {A} (f : A -> bool) (l : list A) :
  Forall (fun x => f x = false) l -> filter f l = [].
Proof.
  induction 1 as [|x l Hx _ IH]; simpl; auto. now rewrite Hx.
Qed.

(** X10.  A folder in which no name passes the filter gives an empty result
    set; no picture is opened, nothing is printed, saved or written. *)
Theorem no_picture_no_output (env : platform) (input_folder output_folder : string)
  (n : nat) (names : list string) :
  makedirs env output_folder = Ok tt ->
  listdir env input_folder = Ok names ->
  Forall (fun f => is_image_file f = false) names ->
  process_folder env input_folder output_folder n = Ok ([], []).
Proof.
  intros Hm Hl Hf. unfold process_folder. rewrite Hm, Hl. cbn [bind_outcome].
  unfold image_files. rewrite (filter_none _ Hf). reflexivity.
Qed.

Lemma no_picture_no_output_text_only :
  process_folder text_only_platform "in" "out" 32 = Ok ([], []).
Proof.
  apply (@no_picture_no_output text_only_platform "in" "out" 32
           ["notes.txt"; "README"; "png"]%string eq_refl eq_refl).
  repeat constructor.
Defined.

Lemma dict_set_keys (d : list (string * result)) (k : string) (r : result) :
  map fst (dict_set d k r)
  = if in_dec string_dec k (map fst d) then map fst d else map fst d ++ [k].
Proof.
  induction d as [|[k0 v] d IH]; simpl; auto.
  destruct (String.eqb_spec k0 k) as [->|Hne]; simpl.
  - destruct (string_dec k k); [reflexivity|contradiction].
  - rewrite IH. destruct (string_dec k0 k); [contradiction|].
    destruct (in_dec string_dec k (map fst d)); reflexivity.
Qed.

(** The keys of the dictionary are distinct names among those already
    handled, in the order of their first insertion. *)
Lemma process_files_keys (env : platform) (input_folder output_folder : string)
  (n : nat) (fs : list string) : forall acc seen,
  NoDup (map fst (fst acc)) ->
  (forall k, In k (map fst (fst acc)) -> In k seen) ->
  NoDup (map fst (fst (fold_left (process_file env input_folder output_folder n) fs acc))) /\
  (forall k, In k (map fst (fst (fold_left
                (process_file env input_folder output_folder n) fs acc))) ->
             In k (seen ++ fs)).
Proof.
  induction fs as [|g fs IH]; intros acc seen Hnd Hin.
  - cbn [fold_left]. split; auto. intros k Hk. rewrite app_nil_r. auto.
  - cbn [fold_left].
    destruct (IH (process_file env input_folder output_folder n acc g) (seen ++ [g]))
      as [H1 H2].
    + rewrite process_file_results.
      destruct (fst (run_file env input_folder output_folder n g)); auto.
      rewrite dict_set_keys.
      destruct (in_dec string_dec g (map fst (fst acc))); auto.
      apply NoDup_app;
        [assumption
        |constructor; [intros []|constructor]
        |intros k Hk [<-|[]]; contradiction].
    + intros k. rewrite process_file_results.
      destruct (fst (run_file env input_folder output_folder n g)).
      * rewrite dict_set_keys.
        destruct (in_dec string_dec g (map fst (fst acc))).
        -- intros Hk. apply in_or_app. left. auto.
        -- intros Hk. apply in_app_or in Hk. apply in_or_app.
           destruct Hk as [Hk|Hk]; [left; auto|right; exact Hk].
      * intros Hk. apply in_or_app. left. auto.
    + split; auto. intros k Hk. specialize (H2 k Hk).
      rewrite <- app_assoc in H2. exact H2.
Qed.

(** X11.  The result set of a folder run has one entry per key; every key
    is a listed name that passed the filter, so there are at most as many
    entries as listed names. *)
Theorem result_set_keys (env : platform) (input_folder output_folder : string)
  (n : nat) (names : list string) (all_results : list (string * result))
  (log : list event) :
  listdir env input_folder = Ok names ->
  process_folder env input_folder output_folder n = Ok (all_results, log) ->
  NoDup (map fst all_results) /\
  (forall k, In k (map fst all_results) ->
             In k names /\ is_image_file k = true) /\
  (length all_results <= length names)%nat.
Proof.
  intros Hl H. unfold process_folder in H.
  destruct (makedirs env output_folder); [|discriminate].
  cbn [bind_outcome] in H. rewrite Hl in H. cbn [bind_outcome] in H. inv H.
  unfold process_files in H1.
  destruct (@process_files_keys env input_folder output_folder n
              (image_files names) ([], []) []) as [Hnd Hin].
  { constructor. }
  { intros k []. }
  rewrite H1 in Hnd, Hin. cbn [fst app] in Hnd, Hin.
  assert (Hk : forall k, In k (map fst all_results) ->
                         In k names /\ is_image_file k = true).
  { intros k Hk. apply Hin in Hk. unfold image_files in Hk.
    apply filter_In in Hk. exact Hk. }
  split; [exact Hnd|]. split; [exact Hk|].
  rewrite <- (length_map fst all_results).
  transitivity (length (image_files names)).
  - apply NoDup_incl_length; [exact Hnd|]. intros k Hk'. now apply Hin.
  - unfold image_files. apply filter_length_le.
Qed.

Lemma result_set_keys_full_disk :
  NoDup (map fst (fst full_disk_run)) /\
  (forall k, In k (map fst (fst full_disk_run)) ->
             In k ["band.png"; "notes.txt"]%string /\ is_image_file k = true) /\
  (length (fst full_disk_run) <= length ["band.png"; "notes.txt"]%string)%nat.
Proof.
  apply (@result_set_keys full_disk_platform "in" "out" 4
           ["band.png"; "notes.txt"]%string (fst full_disk_run) (snd full_disk_run)
           eq_refl).
  rewrite full_disk_run_ok. now destruct full_disk_run.
Defined.

(** ** The report in terms of the red channel *)

(** X12.  For a colour with channels in 0..255 the report line depends on
    the red channel by two cut points: Sell up to 88, Squeeze room from 89
    to 141, Don't sell from 142 on. *)
Theorem report_line_red_cut_points (i : nat) (p : pixel) :
  pixel_range p ->
  report_line i (Some p)
  = Some ("Sector " ++ str (i + 1) ++ ", "
          ++ (if (142 <=? red p)%Z then "Don't sell"
              else if (89 <=? red p)%Z then "Squeeze room" else "Sell")
          ++ newline)%string.
Proof.
  intros Hp. rewrite (report_line_spec i Hp). f_equal. do 3 f_equal.
  destruct Hp as (Hr & _). unfold channel_range in Hr.
  unfold label, scaled_red.
  destruct (Z.leb_spec 200 ((48 * red p + 17) / 34));
    destruct (Z.leb_spec 142 (red p)); try reflexivity;
    try (exfalso; Z.div_mod_to_equations; lia).
  destruct (Z.leb_spec 125 ((48 * red p + 17) / 34));
    destruct (Z.leb_spec 89 (red p)); try reflexivity;
    exfalso; Z.div_mod_to_equations; lia.
Qed.

Lemma report_line_red_cut_points_141 :
  pixel_range (141, 7, 250) /\
  report_line 2 (Some (141, 7, 250))
  = Some ("Sector 3, Squeeze room" ++ newline)%string.
Proof.
  assert (H : pixel_range (141, 7, 250))
    by (unfold pixel_range, channel_range; cbn; lia).
  split; [exact H|]. apply (@report_line_red_cut_points 2 (141, 7, 250) H).
Defined.

(** ** Sectors as slices of the picture *)

Lemma firstn_plus {A} (l : list A) : forall m k,
  firstn m l ++ firstn k (skipn m l) = firstn (m + k) l.
Proof.
  induction l as [|x l IH]; intros [|m] k; simpl; auto.
  - now rewrite firstn_nil.
  - now rewrite IH.
Qed.

(** Two adjacent column ranges of a row make up the range that spans both. *)
Lemma slice_app {A} (row : list A) (lo mid hi : Z) :
  0 <= lo <= mid -> mid <= hi ->
  firstn (Z.to_nat mid - Z.to_nat lo) (skipn (Z.to_nat lo) row)
  ++ firstn (Z.to_nat hi - Z.to_nat mid) (skipn (Z.to_nat mid) row)
  = firstn (Z.to_nat hi - Z.to_nat lo) (skipn (Z.to_nat lo) row).
Proof.
  intros H1 H2.
  replace (skipn (Z.to_nat mid) row)
    with (skipn (Z.to_nat mid - Z.to_nat lo) (skipn (Z.to_nat lo) row)).
  - rewrite firstn_plus. f_equal. lia.
  - rewrite skipn_skipn. f_equal. lia.
Qed.

Lemma columns_row (a : image) (lo hi : Z) (k : nat) :
  nth k (columns a lo hi) []
  = firstn (Z.to_nat hi - Z.to_nat lo) (skipn (Z.to_nat lo) (nth k a [])).
Proof.
  unfold columns. revert k. induction a as [|row a IH]; intros [|k]; simpl; auto;
    now rewrite skipn_nil, firstn_nil.
Qed.

(** X13.  When the boundaries start at a column at or right of 0 and never
    decrease, the sectors cut every row of the picture into adjacent pieces:
    put side by side they are the columns from the first boundary up to the
    last one, each column once. *)
Theorem sectors_partition_columns (a : image) (bounds : list Z) (n k : nat) :
  0 <= nth 0 bounds 0 ->
  (forall i, (i < n)%nat -> nth i bounds 0 <= nth (i + 1) bounds 0) ->
  concat (map (fun i => nth k (sector a bounds i) []) (seq 0 n))
  = nth k (columns a (nth 0 bounds 0) (nth n bounds 0)) [].
Proof.
  intros H0 Hmono. unfold sector.
  assert (H : nth 0 bounds 0 <= nth n bounds 0 /\
              concat (map (fun i => nth k (columns a (nth i bounds 0)
                                             (nth (i + 1) bounds 0)) [])
                        (seq 0 n))
              = nth k (columns a (nth 0 bounds 0) (nth n bounds 0)) []);
    [|apply H].
  induction n as [|n IH].
  - split; [lia|]. cbn [seq map concat]. rewrite columns_row.
    now rewrite Nat.sub_diag.
  - destruct IH as [Hle IH]; [intros i Hi; apply Hmono; lia|].
    pose proof (Hmono n ltac:(lia)) as Hn.
    replace (n + 1)%nat with (S n) in Hn by lia.
    split; [lia|].
    rewrite seq_S, map_app, concat_app, IH. cbn [map concat Nat.add].
    rewrite app_nil_r, !columns_row.
    replace (n + 1)%nat with (S n) by lia.
    apply slice_app; lia.
Qed.

Lemma sectors_partition_columns_25_75 :
  concat (map (fun i => nth 0 (sector (solid_image 100 50 (64, 64, 64))
                                 bounds_25_75 i) [])
            (seq 0 32))
  = nth 0 (columns (solid_image 100 50 (64, 64, 64))
             (nth 0 bounds_25_75 0) (nth 32 bounds_25_75 0)) [].
Proof.
  apply (@sectors_partition_columns (solid_image 100 50 (64, 64, 64))
           bounds_25_75 32 0).
  - vm_compute. discriminate.
  - intros i Hi.
    pose proof sectors_25_75_narrow as Hn. rewrite forallb_forall in Hn.
    specialize (Hn i ltac:(apply in_seq; lia)). unfold narrow_sector in Hn.
    apply andb_prop in Hn. destruct Hn as [_ Hk]. apply orb_prop in Hk.
    destruct Hk as [Hk|Hk]; apply Z.eqb_eq in Hk; lia.
Defined.

Lemma concat_empty_rows {A B} (l : list A) :
  concat (map (fun _ => @nil B) l) = [].
Proof. induction l; simpl; auto. Qed.

Lemma some_step_is_flat (b : nat -> Z) (n : nat) :
  b n - b 0%nat < Z.of_nat n ->
  exists i, (i < n)%nat /\ b (i + 1)%nat <= b i.
Proof.
  induction n as [|n IH]; intros H; [simpl in H; lia|].
  destruct (Z.le_gt_cases (b (S n)) (b n)) as [Hle|Hgt].
  - exists n. split; [lia|]. now replace (n + 1)%nat with (S n) by lia.
  - destruct IH as (i & Hi & Hb); [lia|]. exists i. split; [lia|exact Hb].
Qed.

(** The mean of a channel over a block without pixels is 0.0/0 = nan. *)
Lemma empty_block_mean (ch : pixel -> Z) (block : image) :
  concat block = [] -> channel_mean ch block = F64.nan.
Proof. intros H. unfold channel_mean. rewrite H. reflexivity. Qed.

(** X14.  Whenever the last boundary of a result is less than
    [num_sectors] columns right of the first, at least one of its sectors is
    an empty block, and the mean of every channel over it is nan. *)
Theorem narrow_spectrum_has_empty_sector (a : image) (n : nat) (r : result) :
  analyse a n = Ok r ->
  nth n (boundaries r) 0 - nth 0 (boundaries r) 0 < Z.of_nat n ->
  exists i, (i < n)%nat /\
            nth (i + 1) (boundaries r) 0 <= nth i (boundaries r) 0 /\
            concat (sector a (boundaries r) i) = [] /\
            channel_mean red (sector a (boundaries r) i) = F64.nan /\
            channel_mean green (sector a (boundaries r) i) = F64.nan /\
            channel_mean blue (sector a (boundaries r) i) = F64.nan.
Proof.
  intros Ha Hn.
  destruct (some_step_is_flat (fun i => nth i (boundaries r) 0) n Hn)
    as (i & Hi & Hb).
  assert (He : concat (sector a (boundaries r) i) = []).
  { unfold sector, columns.
    replace (Z.to_nat (nth (i + 1) (boundaries r) 0%Z)
             - Z.to_nat (nth i (boundaries r) 0%Z))%nat with 0%nat by lia.
    cbn [firstn]. apply concat_empty_rows. }
  exists i. split; [exact Hi|]. split; [exact Hb|]. split; [exact He|].
  split; [|split]; now apply empty_block_mean.
Qed.

Lemma narrow_spectrum_has_empty_sector_forty :
  exists i, (i < 32)%nat /\
            nth (i + 1) (boundaries forty_columns_result) 0
            <= nth i (boundaries forty_columns_result) 0 /\
            concat (sector forty_columns (boundaries forty_columns_result) i) = [] /\
            channel_mean red (sector forty_columns (boundaries forty_columns_result) i)
            = F64.nan /\
            channel_mean green (sector forty_columns (boundaries forty_columns_result) i)
            = F64.nan /\
            channel_mean blue (sector forty_columns (boundaries forty_columns_result) i)
            = F64.nan.
Proof.
  apply (@narrow_spectrum_has_empty_sector forty_columns 32 forty_columns_result).
  - vm_compute. reflexivity.
  - vm_compute. reflexivity.
Defined.

(** ** What a folder run writes *)

Lemma process_spectrum_events (env : platform)
  (input_path output_path title : string) (n : nat) :
  (exists r canvas,
     process_spectrum env input_path output_path title n
     = (Some r, [SaveImage output_path canvas;
                 Print ("Processed image saved to " ++ output_path)%string])) \/
  (exists e,
     process_spectrum env input_path output_path title n
     = (None, [Print ("Error processing image: " ++ e)%string])).
Proof.
  unfold process_spectrum.
  destruct (bind_outcome (image_open env input_path) _) as [[r s]|e].
  - left. exists r, (img s). reflexivity.
  - right. exists e. reflexivity.
Qed.

Section Writes.
Variable env : platform.
Variables input_folder output_folder : string.
Variable n : nat.
Variable files : list string.

(** Where an event of the log comes from: a saved picture and a written
    report belong to a file of the folder for which [process_spectrum]
    returned a result. *)
Let accounted (e : event) : Prop :=
  match e with
  | Print _ => True
  | SaveImage path _ =>
      exists f r, In f files /\
                  fst (run_file env input_folder output_folder n f) = Some r /\
                  path = path_join output_folder f
  | WriteFile path content =>
      exists f r, In f files /\
                  fst (run_file env input_folder output_folder n f) = Some r /\
                  path = color_file output_folder f /\
                  content = report (sector_colors r)
  end.

Lemma process_file_accounted acc g :
  In g files ->
  (forall e, In e (snd acc) -> accounted e) ->
  forall e, In e (snd (process_file env input_folder output_folder n acc g)) ->
            accounted e.
Proof.
  intros Hg Hacc e. unfold process_file. destruct acc as [d out].
  destruct (process_spectrum_events env (path_join input_folder g)
              (path_join output_folder g) (splitext_root g) n)
    as [(r & c & E)|(msg & E)]; unfold run_file at 1; rewrite E.
  - assert (Hr : fst (run_file env input_folder output_folder n g) = Some r)
      by (unfold run_file; now rewrite E).
    destruct (file_write env (color_file output_folder g));
      intros He; repeat (apply in_app_or in He; destruct He as [He|He]);
      try (now apply Hacc);
      repeat (destruct He as [<-|He]; [cbn; eauto 10|]); try contradiction.
  - intros He; repeat (apply in_app_or in He; destruct He as [He|He]);
      try (now apply Hacc);
      repeat (destruct He as [<-|He]; [cbn; eauto 10|]); try contradiction.
Qed.

Lemma process_files_accounted (fs : list string) : forall acc,
  incl fs files ->
  (forall e, In e (snd acc) -> accounted e) ->
  forall e, In e (snd (fold_left (process_file env input_folder output_folder n)
                         fs acc)) -> accounted e.
Proof.
  induction fs as [|g fs IH]; intros acc Hin Hacc; [exact Hacc|].
  cbn [fold_left]. apply IH.
  - intros f Hf. apply Hin. now right.
  - apply process_file_accounted; auto. apply Hin. now left.
Qed.

Lemma process_file_writes acc g r u :
  fst (run_file env input_folder output_folder n g) = Some r ->
  file_write env (color_file output_folder g) = Ok u ->
  In (WriteFile (color_file output_folder g) (report (sector_colors r)))
     (snd (process_file env input_folder output_folder n acc g)).
Proof.
  intros Hr Hw. unfold process_file. destruct acc as [d out].
  destruct (run_file env input_folder output_folder n g) as [res pr].
  cbn [fst] in Hr. subst res. rewrite Hw.
  cbn [snd]. apply in_or_app. right. now left.
Qed.

Lemma process_files_writes (fs : list string) g r u : forall acc,
  In g fs ->
  fst (run_file env input_folder output_folder n g) = Some r ->
  file_write env (color_file output_folder g) = Ok u ->
  In (WriteFile (color_file output_folder g) (report (sector_colors r)))
     (snd (fold_left (process_file env input_folder output_folder n) fs acc)).
Proof.
  induction fs as [|f fs IH]; intros acc Hin Hr Hw; [contradiction|].
  cbn [fold_left]. destruct Hin as [->|Hin]; [|now apply IH].
  apply fold_log_grows. now apply (@process_file_writes acc g r u).
Qed.

End Writes.

(** X15.  A folder run saves pictures and writes reports only for listed
    names that pass the filter and for which [process_spectrum] returned a
    result: each picture goes to [os.path.join(output_folder, name)], each
    report to the report path of its name, with the text made from the
    returned sector colours; and every such report that can be written is
    written. *)
Theorem folder_run_writes (env : platform) (input_folder output_folder : string)
  (n : nat) (names : list string) (all_results : list (string * result))
  (log : list event) :
  listdir env input_folder = Ok names ->
  process_folder env input_folder output_folder n = Ok (all_results, log) ->
  (forall path canvas, In (SaveImage path canvas) log ->
     exists f r, In f (image_files names) /\
                 fst (run_file env input_folder output_folder n f) = Some r /\
                 path = path_join output_folder f) /\
  (forall path content, In (WriteFile path content) log ->
     exists f r, In f (image_files names) /\
                 fst (run_file env input_folder output_folder n f) = Some r /\
                 path = color_file output_folder f /\
                 content = report (sector_colors r)) /\
  (forall f r u, In f (image_files names) ->
     fst (run_file env input_folder output_folder n f) = Some r ->
     file_write env (color_file output_folder f) = Ok u ->
     In (WriteFile (color_file output_folder f) (report (sector_colors r))) log).
Proof.
  intros Hl H. unfold process_folder in H.
  destruct (makedirs env output_folder); [|discriminate].
  cbn [bind_outcome] in H. rewrite Hl in H. cbn [bind_outcome] in H. inv H.
  unfold process_files in H1.
  pose proof (@process_files_accounted env input_folder output_folder n
                (image_files names) (image_files names) ([], [])
                (incl_refl _)) as Hacc.
  rewrite H1 in Hacc. cbn [snd] in Hacc.
  specialize (Hacc ltac:(intros e [])).
  split; [|split].
  - intros path canvas He. exact (Hacc _ He).
  - intros path content He. exact (Hacc _ He).
  - intros f r u Hf Hr Hw.
    pose proof (@process_files_writes env input_folder output_folder n
                  (image_files names) f r u ([], []) Hf Hr Hw) as Hin.
    now rewrite H1 in Hin.
Qed.

Lemma one_band_run_ok :
  process_folder one_band_platform "in" "out" 4 = Ok one_band_run.
Proof. vm_compute. reflexivity. Qed.

Lemma folder_run_writes_one_band :
  (forall path canvas, In (SaveImage path canvas) (snd one_band_run) ->
     exists f r, In f (image_files ["band.png"; "notes.txt"]%string) /\
                 fst (run_file one_band_platform "in" "out" 4 f) = Some r /\
                 path = path_join "out" f) /\
  (forall path content, In (WriteFile path content) (snd one_band_run) ->
     exists f r, In f (image_files ["band.png"; "notes.txt"]%string) /\
                 fst (run_file one_band_platform "in" "out" 4 f) = Some r /\
                 path = color_file "out" f /\
                 content = report (sector_colors r)) /\
  (forall f r u, In f (image_files ["band.png"; "notes.txt"]%string) ->
     fst (run_file one_band_platform "in" "out" 4 f) = Some r ->
     file_write one_band_platform (color_file "out" f) = Ok u ->
     In (WriteFile (color_file "out" f) (report (sector_colors r)))
        (snd one_band_run)).
Proof.
  apply (@folder_run_writes one_band_platform "in" "out" 4
           ["band.png"; "notes.txt"]%string (fst one_band_run) (snd one_band_run)
           eq_refl).
  rewrite one_band_run_ok. now destruct one_band_run.
Defined.

(** ** The edge strength *)

Lemma abs_not_negative (v : float) : F64.ltb (F64.abs v) F64.zero = false.
Proof. destruct v as [s|s| |s m e]; reflexivity. Qed.

(** X16.  The edge strength of lines 47-51 exists exactly for pictures of
    at least two columns; it then has one value per column, none of them
    negative.  With fewer columns the computation raises. *)
Theorem edge_strength_shape (a : image) :
  ((width a < 2)%nat -> exists msg, gradient_magnitude a = Raise msg) /\
  ((2 <= width a)%nat ->
   exists gm, gradient_magnitude a = Ok gm /\ length gm = width a /\
              Forall (fun v => F64.ltb v F64.zero = false) gm).
Proof.
  split.
  - intros Hw. unfold gradient_magnitude, grayscale.
    pose proof (avg_colors_length a) as Hl.
    destruct (avg_colors a) as [|c cs]; [eexists; reflexivity|].
    cbn [map Np.amin Np.amax bind_outcome]. unfold Np.gradient.
    cbn [length] in Hl |- *. rewrite !length_map.
    destruct (Nat.ltb_spec (S (length cs)) 2); [|lia].
    eexists; reflexivity.
  - intros Hw. unfold gradient_magnitude.
    destruct (grayscale_ok a) as (g & Hg & Hlen); [lia|].
    destruct (gradient_ok g) as (d & Hd & Hl); [lia|].
    rewrite Hg. cbn [bind_outcome]. rewrite Hd. cbn [bind_outcome].
    eexists. split; [reflexivity|]. unfold Np.absolute. split.
    + rewrite length_map. congruence.
    + apply Forall_forall. intros v Hv. apply in_map_iff in Hv.
      destruct Hv as (u & <- & _). apply abs_not_negative.
Qed.
